(** * A model of [LiveAIModule] (src/server/live-ai-module.js)

    The orchestrator is a single JavaScript object whose methods run as
    event handlers on one thread.  Between two [await]s that wait for the
    network (a Claude response, a TTS socket opening, a tutorial being
    generated) other handlers may run; an [await] whose promise is already
    settled only yields to microtasks, which run before the next event.

    The model follows that structure:
    - the data (conversation turns, content blocks, JSON results) as the
      code builds them;
    - the pure passes [sanitizeConversation], [pruneOldImages] and the
      sentence splitter of [handleTextChunkForTTS];
    - the TTS client ([ElevenLabsTTS], src/unnamed/part_004) with its socket
      fields and the [sendTextChunk]/[sendText] calls that are parked in
      [connect()] until the socket opens;
    - the module state, the synchronous handlers, and the two long-running
      async methods ([sendToClaudeAndSpeak] and the recurring-check timer
      callback) as continuations resumed by environment events;
    - a [run] function folding a trace of events. *)

From Stdlib Require Import String Ascii List Bool Arith ZArith Lia.
Import ListNotations.
Local Open Scope string_scope.
Local Open Scope nat_scope.
Local Open Scope list_scope.
Local Open Scope bool_scope.
Set Warnings "-register-all".


(* ------------------------------------------------------------------ *)
(** ** Characters and strings *)

(** Whitespace as matched by JavaScript's [\s] and removed by [trim()],
    restricted to the ASCII range: tab, LF, VT, FF, CR and space. *)
Definition is_ws (c : ascii) : bool :=
  match nat_of_ascii c with
  | 9 | 10 | 11 | 12 | 13 | 32 => true
  | _ => false
  end.

(** The character class [[.!?]]. *)
Definition is_terminator (c : ascii) : bool :=
  match nat_of_ascii c with
  | 46 | 33 | 63 => true
  | _ => false
  end.

(** [s.trim() !== ''] : the string holds a non-whitespace character. *)
Fixpoint nonblank (s : string) : bool :=
  match s with
  | EmptyString => false
  | String c r => negb (is_ws c) || nonblank r
  end.

(** [/[.!?]\s/.exec(s)] : the index of the leftmost match, if any. *)
Fixpoint sentence_end (s : string) : option nat :=
  match s with
  | EmptyString => None
  | String c r =>
      match r with
      | EmptyString => None
      | String d _ =>
          if is_terminator c && is_ws d then Some 0
          else option_map S (sentence_end r)
      end
  end.

(** [s.substring(i)] *)
Definition drop_str (i : nat) (s : string) : string :=
  substring i (String.length s - i) s.

(** [hay.includes(needle)] *)
Fixpoint includes (needle hay : string) : bool :=
  String.prefix needle hay ||
  match hay with
  | EmptyString => false
  | String _ r => includes needle r
  end.

(* ------------------------------------------------------------------ *)
(** ** Conversation data *)

(** JSON values: tool inputs and the objects returned by tool handlers.
    A tool-result block stores [JSON.stringify(result)]; we keep the value
    itself, which determines the string. *)
Inductive json :=
| JNull
| JBool (b : bool)
| JNum (n : Z)
| JStr (s : string)
| JArr (l : list json)
| JObj (fields : list (string * json)).

(** [args.key], [undefined] read as [JNull]. *)
Definition jget (k : string) (j : json) : json :=
  match j with
  | JObj fs =>
      match find (fun kv => String.eqb (fst kv) k) fs with
      | Some (_, v) => v
      | None => JNull
      end
  | _ => JNull
  end.

Inductive role := User | Assistant.

Definition role_eqb (a b : role) : bool :=
  match a, b with
  | User, User | Assistant, Assistant => true
  | _, _ => false
  end.

(** Content blocks, by their [type] field. *)
Inductive block :=
| BText (text : string)
| BImage (media_type data : string)
| BToolUse (id name : string) (input : json)
| BToolResult (tool_use_id : string) (content : json).

Definition is_text (b : block) : bool :=
  match b with BText _ => true | _ => false end.
Definition is_image (b : block) : bool :=
  match b with BImage _ _ => true | _ => false end.
Definition is_tool_use (b : block) : bool :=
  match b with BToolUse _ _ _ => true | _ => false end.
Definition is_tool_result (b : block) : bool :=
  match b with BToolResult _ _ => true | _ => false end.

(** [msg.content] is either a string or an array of blocks. *)
Inductive content :=
| CStr (s : string)
| CBlocks (bs : list block).

Record msg := Msg { role_of : role; content_of : content }.

(** [Array.isArray(c) ? c : []] *)
Definition blocks_of (c : content) : list block :=
  match c with CBlocks bs => bs | CStr _ => [] end.

(** The placeholder used for interrupted assistant turns. *)
Definition interrupted_placeholder : string := "[Response interrupted by user]".

(* ------------------------------------------------------------------ *)
(** ** [sanitizeConversation] *)

(** The body of the loop for the message at index [i], given the message
    at index [i+1] (if any).  Only assistant messages are rewritten, and
    the role of the next message is what the test looks at, so the result
    does not depend on whether the next message was rewritten already. *)
Definition sanitize_msg (m : msg) (next : option msg) : msg :=
  match role_of m with
  | User => m
  | Assistant =>
      let blocks := blocks_of (content_of m) in
      if negb (existsb is_tool_use blocks) then m
      else
        let valid_pair :=
          match next with
          | Some n =>
              role_eqb (role_of n) User
              && existsb is_tool_result (blocks_of (content_of n))
          | None => false
          end in
        if valid_pair then m
        else
          let text_blocks := filter is_text blocks in
          if (0 <? length text_blocks)
             && existsb (fun b => match b with
                                  | BText t => nonblank t
                                  | _ => false
                                  end) text_blocks
          then
            match text_blocks with
            | [BText t] => Msg Assistant (CStr t)
            | _ => Msg Assistant (CBlocks text_blocks)
            end
          else Msg Assistant (CStr interrupted_placeholder)
  end.

(** The loop runs from the last index down to 0: the tail is processed
    first, then the head looks at the (processed) next message. *)
Fixpoint sanitize (h : list msg) : list msg :=
  match h with
  | [] => []
  | m :: t =>
      let t' := sanitize t in
      sanitize_msg m (hd_error t') :: t'
  end.

(* ------------------------------------------------------------------ *)
(** ** [pruneOldImages] *)

Definition MAX_CONTEXT_IMAGES : nat := 10.

(** [Array.isArray(msg.content) && msg.content.some(b => b.type === 'image')] *)
Definition image_bearing (m : msg) : bool :=
  match content_of m with
  | CBlocks bs => existsb is_image bs
  | CStr _ => false
  end.

(** [imageIndices], built by the first loop (from index [i] on). *)
Fixpoint image_indices_from (i : nat) (h : list msg) : list nat :=
  match h with
  | [] => []
  | m :: t =>
      if image_bearing m then i :: image_indices_from (S i) t
      else image_indices_from (S i) t
  end.

Definition image_indices (h : list msg) : list nat := image_indices_from 0 h.

(** The body of the second loop for one index of [toStrip]. *)
Definition strip_images (m : msg) : msg :=
  let text_blocks := filter (fun b => negb (is_image b)) (blocks_of (content_of m)) in
  match text_blocks with
  | [BText t] => Msg (role_of m) (CStr t)
  | _ => Msg (role_of m) (CBlocks text_blocks)
  end.

(** [this.currentConversation[idx] = ...] for every [idx] of [toStrip]. *)
Fixpoint strip_at (to_strip : list nat) (i : nat) (h : list msg) : list msg :=
  match h with
  | [] => []
  | m :: t =>
      (if existsb (Nat.eqb i) to_strip then strip_images m else m)
        :: strip_at to_strip (S i) t
  end.

Definition prune_old_images (h : list msg) : list msg :=
  let idx := image_indices h in
  if length idx <=? MAX_CONTEXT_IMAGES then h
  else strip_at (firstn (length idx - MAX_CONTEXT_IMAGES) idx) 0 h.

(** [buildUserContent(text)] given [this.latestFrame]. *)
Definition build_user_content (latest_frame : option string) (text : string) : content :=
  match latest_frame with
  | None => CStr text
  | Some frame => CBlocks [BImage "image/jpeg" frame; BText text]
  end.

(* ------------------------------------------------------------------ *)
(** ** The TTS client ([ElevenLabsTTS], src/unnamed/part_004) *)

(** What is written on a socket: the init message sent on [open],
    [{text: chunk}] ([sendTextChunk]), [{text: text + ' ', flush: true}]
    ([sendText]), [{text: ' ', flush: true}] ([flush]) and
    [{text: ''}] ([closeStream]). *)
Inductive wire_msg :=
| WInit
| WText (s : string)
| WFlushText (s : string)
| WFlush
| WEOS.

(** Calls received through the SpeechSynthesizer interface, in call order. *)
Inductive tts_call :=
| CallChunk (s : string)
| CallText (s : string)
| CallFlush
| CallClose
| CallInterrupt.

(** A [sendTextChunk]/[sendText] call parked in [connect()]: either the
    call that opened socket [sid] and waits for the promise that its
    [open]/[error] listeners settle ([w_socket = Some sid]), or a call that
    found [this.connecting] set and polls in [_waitForConnection]
    ([w_socket = None]).  [w_tag] records which Claude request the text
    belongs to (the number of requests issued when the call was made);
    [w_owner] tells whether the running task awaits the call. *)
Record waiter := Waiter {
  w_socket : option nat;
  w_msg : wire_msg;
  w_tag : nat;
  w_owner : bool
}.

(** [this.ws] is [Some sid] while socket [sid] is the client's socket with
    its listeners attached; [tts_wire] is what was written on each socket,
    with the tag of the text. *)
Record tts := TTS {
  tts_ws : option nat;
  tts_connected : bool;
  tts_connecting : bool;
  tts_next_socket : nat;
  tts_waiters : list waiter;
  tts_calls : list tts_call;
  tts_wire : list (nat * wire_msg * nat)
}.

Definition tts_init : tts := TTS None false false 0 [] [] [].

Definition tts_log (c : tts_call) (t : tts) : tts :=
  TTS (tts_ws t) (tts_connected t) (tts_connecting t) (tts_next_socket t)
      (tts_waiters t) (tts_calls t ++ [c]) (tts_wire t).

Definition tts_set_waiters (ws : list waiter) (t : tts) : tts :=
  TTS (tts_ws t) (tts_connected t) (tts_connecting t) (tts_next_socket t)
      ws (tts_calls t) (tts_wire t).

Definition tts_set_conn (w : option nat) (conn cing : bool) (t : tts) : tts :=
  TTS w conn cing (tts_next_socket t) (tts_waiters t) (tts_calls t) (tts_wire t).

(** [if (!this.ws || !this.connected) return; this.ws.send(m)] *)
Definition tts_send (m : wire_msg) (tag : nat) (t : tts) : tts :=
  match tts_ws t with
  | Some sid =>
      if tts_connected t then
        TTS (tts_ws t) (tts_connected t) (tts_connecting t) (tts_next_socket t)
            (tts_waiters t) (tts_calls t) (tts_wire t ++ [(sid, m, tag)])
      else t
  | None => t
  end.

(** A [sendTextChunk]/[sendText] call: [await this._ensureConnected()],
    then the guarded send.  When connected the await only yields to
    microtasks and the send follows at once; otherwise [connect()] either
    starts a new socket (when not [connecting]) or polls.  The boolean
    tells whether the call is parked. *)
Definition tts_call_send (c : tts_call) (m : wire_msg) (tag : nat) (owner : bool)
    (t : tts) : tts * bool :=
  let t := tts_log c t in
  if tts_connected t then (tts_send m tag t, false)
  else if tts_connecting t then
    (tts_set_waiters (tts_waiters t ++ [Waiter None m tag owner]) t, true)
  else
    let sid := tts_next_socket t in
    (TTS (Some sid) false true (S sid)
         (tts_waiters t ++ [Waiter (Some sid) m tag owner]) (tts_calls t) (tts_wire t),
     true).

(** [flush()] and [closeStream()] have no [await] inside. *)
Definition tts_flush (tag : nat) (t : tts) : tts := tts_send WFlush tag (tts_log CallFlush t).
Definition tts_close_stream (tag : nat) (t : tts) : tts := tts_send WEOS tag (tts_log CallClose t).

(** [interrupt()]: remove the socket's listeners, close or terminate it,
    forget it.  Parked calls are not touched. *)
Definition tts_interrupt (t : tts) : tts :=
  let t := tts_log CallInterrupt t in
  match tts_ws t with
  | Some _ => tts_set_conn None false false t
  | None => t
  end.

(** How a parked call of the running task ended. *)
Inductive wake := WakeOk | WakeErr.

Definition socket_eqb (a : option nat) (sid : nat) : bool :=
  match a with Some x => Nat.eqb x sid | None => false end.

(** Resolving the calls parked on socket [sid]'s promise: each one does
    its guarded send. *)
Fixpoint resolve_openers (sid : nat) (ws : list waiter) (t : tts)
    : list waiter * tts * option wake :=
  match ws with
  | [] => ([], t, None)
  | w :: rest =>
      let '(rest', t', k) := resolve_openers sid rest
          (if socket_eqb (w_socket w) sid then tts_send (w_msg w) (w_tag w) t else t) in
      if socket_eqb (w_socket w) sid then
        (rest', t', if w_owner w then Some WakeOk else k)
      else (w :: rest', t', k)
  end.

(** The [open] listener of socket [sid]: only delivered while [sid] is the
    client's socket with its listeners. *)
Definition tts_on_open (sid : nat) (t : tts) : tts * option wake :=
  if socket_eqb (tts_ws t) sid then
    let t := tts_send WInit 0 (tts_set_conn (tts_ws t) true false t) in
    let '(ws', t', k) := resolve_openers sid (tts_waiters t) t in
    (tts_set_waiters ws' t', k)
  else (t, None).

(** The [error] listener: the promise of [connect()] rejects. *)
Definition tts_on_error (sid : nat) (t : tts) : tts * option wake :=
  if socket_eqb (tts_ws t) sid then
    let t := tts_set_conn (tts_ws t) false false t in
    let mine := filter (fun w => socket_eqb (w_socket w) sid) (tts_waiters t) in
    let others := filter (fun w => negb (socket_eqb (w_socket w) sid)) (tts_waiters t) in
    (tts_set_waiters others t,
     if existsb w_owner mine then Some WakeErr else None)
  else (t, None).

(** The [close] listener. *)
Definition tts_on_close (sid : nat) (t : tts) : tts :=
  if socket_eqb (tts_ws t) sid then tts_set_conn None false false t else t.

Fixpoint remove_nth {A} (i : nat) (l : list A) : list A :=
  match i, l with
  | _, [] => []
  | 0, _ :: t => t
  | S j, x :: t => x :: remove_nth j t
  end.

(** One poll of the [i]-th parked call in [_waitForConnection]: it resolves
    when [this.connected] is set ([timeout = false]) or when its 10 s
    timeout fires ([timeout = true]); then the guarded send. *)
Definition tts_on_poll (timeout : bool) (i : nat) (t : tts) : tts * option wake :=
  match nth_error (tts_waiters t) i with
  | Some w =>
      match w_socket w with
      | None =>
          if timeout || tts_connected t then
            (tts_send (w_msg w) (w_tag w)
                      (tts_set_waiters (remove_nth i (tts_waiters t)) t),
             if w_owner w then Some WakeOk else None)
          else (t, None)
      | Some _ => (t, None)
      end
  | None => (t, None)
  end.

(** The [k]-th message written on socket [sid]. *)
Definition wire_of (sid : nat) (t : tts) : list (wire_msg * nat) :=
  map (fun x => (snd (fst x), snd x))
      (filter (fun x => Nat.eqb (fst (fst x)) sid) (tts_wire t)).

(* ------------------------------------------------------------------ *)
(** ** Module state *)

Record tut_step := TutStep { st_number : Z; st_title : string; st_instruction : string }.
Record tutorial := Tutorial { t_label : string; t_total : nat; t_steps : list tut_step }.

(** How [this.lessonCreator.generate(...)] settles. *)
Inductive tut_outcome := TutOk (t : tutorial) | TutErr (message : string).

(** Events emitted on the client socket (other than [agent_audio]). *)
Record emit := Emit { e_name : string; e_payload : json }.

(** Which call issued an outbound Claude request. *)
Inductive req_kind := ReqMain | ReqCheck | ReqFollowUp.

(** Where the running [sendToClaudeAndSpeak] waits. *)
Inductive main_pc :=
| MStream (is_cont : bool) (full_text : string)
    (* [await this.claude.getStreamingResponse(...)]; [fullText] so far *)
| MFlushWait (is_cont : bool) (full_text : string) (resp : list block)
    (* [await this.tts.sendTextChunk(this.sentenceBuffer + ' ')] *)
| MToolWait (tool_id : string) (rest : list block) (results : list block).
    (* [await this.handleToolCall('Create_Tutorial', ...)] *)

(** Where the running recurring check waits. [commit] is [messagesToCommit],
    [first] is [isFirstText]. *)
Inductive rec_pc :=
| RInitial (uc : content)
| RTTSWait (commit : list msg) (tools : list block) (round : nat)
| RToolWait (commit : list msg) (first : bool) (round : nat)
            (tool_id : string) (rest : list block) (results : list block)
| RFollowUp (commit : list msg) (first : bool) (round : nat).

(** The running async task.  [from_start]: the main cycle was awaited by
    [startSession], which then starts the recurring timer. *)
Inductive task :=
| TMain (pc : main_pc) (from_start : bool)
| TRec (pc : rec_pc).

Record state := St {
  conv : list msg;                 (* this.currentConversation *)
  interrupted : bool;
  is_processing : bool;
  has_pending : bool;              (* this.hasPendingUserMessage *)
  rec_running : bool;              (* this.isRecurringCheckRunning *)
  rec_cancelled : bool;            (* this.recurringCheckCancelled *)
  speaking : bool;                 (* this.isAgentCurrentlySpeaking *)
  latest_frame : option string;
  last_user_input_at : Z;
  sentence_buffer : string;
  cur_tutorial : option tutorial;
  step_index : Z;                  (* this.currentStepIndex *)
  timer_on : bool;                 (* this.recurringCheckInterval is set *)
  tts_st : tts;                    (* this.tts *)
  active : option task;
  requests : list (req_kind * list msg);      (* messages sent to Claude *)
  audio_out : list (nat * wire_msg * nat);    (* agent_audio emitted *)
  emitted : list emit;
  tool_log : list (string * string)           (* handleToolCall(name, _, id) *)
}.

(** Tool-specific configuration loaded by [startSession]. *)
Record config := Config {
  cfg_figma : bool;                (* this.toolType === 'figma' *)
  cfg_rec_enabled : bool;          (* config.recurringCheck?.enabled *)
  cfg_idle_ms : Z                  (* config.recurringCheck.idleThresholdMs || 10000 *)
}.

Definition init_state : state :=
  St [] false false false false false false None 0 "" None 0 false tts_init None
     [] [] [] [].

(** Field updates. *)
Definition set_conv (h : list msg) (s : state) : state :=
  St h (interrupted s) (is_processing s) (has_pending s) (rec_running s)
     (rec_cancelled s) (speaking s) (latest_frame s) (last_user_input_at s)
     (sentence_buffer s) (cur_tutorial s) (step_index s) (timer_on s) (tts_st s)
     (active s) (requests s) (audio_out s) (emitted s) (tool_log s).
Definition set_flags (intr proc pend rrun rcan spk : bool) (s : state) : state :=
  St (conv s) intr proc pend rrun rcan spk (latest_frame s) (last_user_input_at s)
     (sentence_buffer s) (cur_tutorial s) (step_index s) (timer_on s) (tts_st s)
     (active s) (requests s) (audio_out s) (emitted s) (tool_log s).
Definition set_frame (f : option string) (s : state) : state :=
  St (conv s) (interrupted s) (is_processing s) (has_pending s) (rec_running s)
     (rec_cancelled s) (speaking s) f (last_user_input_at s)
     (sentence_buffer s) (cur_tutorial s) (step_index s) (timer_on s) (tts_st s)
     (active s) (requests s) (audio_out s) (emitted s) (tool_log s).
Definition set_last_input (z : Z) (s : state) : state :=
  St (conv s) (interrupted s) (is_processing s) (has_pending s) (rec_running s)
     (rec_cancelled s) (speaking s) (latest_frame s) z
     (sentence_buffer s) (cur_tutorial s) (step_index s) (timer_on s) (tts_st s)
     (active s) (requests s) (audio_out s) (emitted s) (tool_log s).
Definition set_buffer (b : string) (s : state) : state :=
  St (conv s) (interrupted s) (is_processing s) (has_pending s) (rec_running s)
     (rec_cancelled s) (speaking s) (latest_frame s) (last_user_input_at s)
     b (cur_tutorial s) (step_index s) (timer_on s) (tts_st s)
     (active s) (requests s) (audio_out s) (emitted s) (tool_log s).
Definition set_tutorial (t : option tutorial) (i : Z) (s : state) : state :=
  St (conv s) (interrupted s) (is_processing s) (has_pending s) (rec_running s)
     (rec_cancelled s) (speaking s) (latest_frame s) (last_user_input_at s)
     (sentence_buffer s) t i (timer_on s) (tts_st s)
     (active s) (requests s) (audio_out s) (emitted s) (tool_log s).
Definition set_timer (b : bool) (s : state) : state :=
  St (conv s) (interrupted s) (is_processing s) (has_pending s) (rec_running s)
     (rec_cancelled s) (speaking s) (latest_frame s) (last_user_input_at s)
     (sentence_buffer s) (cur_tutorial s) (step_index s) b (tts_st s)
     (active s) (requests s) (audio_out s) (emitted s) (tool_log s).
Definition set_tts (t : tts) (s : state) : state :=
  St (conv s) (interrupted s) (is_processing s) (has_pending s) (rec_running s)
     (rec_cancelled s) (speaking s) (latest_frame s) (last_user_input_at s)
     (sentence_buffer s) (cur_tutorial s) (step_index s) (timer_on s) t
     (active s) (requests s) (audio_out s) (emitted s) (tool_log s).
Definition set_active (a : option task) (s : state) : state :=
  St (conv s) (interrupted s) (is_processing s) (has_pending s) (rec_running s)
     (rec_cancelled s) (speaking s) (latest_frame s) (last_user_input_at s)
     (sentence_buffer s) (cur_tutorial s) (step_index s) (timer_on s) (tts_st s)
     a (requests s) (audio_out s) (emitted s) (tool_log s).
Definition add_request (k : req_kind) (h : list msg) (s : state) : state :=
  St (conv s) (interrupted s) (is_processing s) (has_pending s) (rec_running s)
     (rec_cancelled s) (speaking s) (latest_frame s) (last_user_input_at s)
     (sentence_buffer s) (cur_tutorial s) (step_index s) (timer_on s) (tts_st s)
     (active s) (requests s ++ [(k, h)]) (audio_out s) (emitted s) (tool_log s).
Definition add_audio (a : nat * wire_msg * nat) (s : state) : state :=
  St (conv s) (interrupted s) (is_processing s) (has_pending s) (rec_running s)
     (rec_cancelled s) (speaking s) (latest_frame s) (last_user_input_at s)
     (sentence_buffer s) (cur_tutorial s) (step_index s) (timer_on s) (tts_st s)
     (active s) (requests s) (audio_out s ++ [a]) (emitted s) (tool_log s).
Definition add_emit (name : string) (p : json) (s : state) : state :=
  St (conv s) (interrupted s) (is_processing s) (has_pending s) (rec_running s)
     (rec_cancelled s) (speaking s) (latest_frame s) (last_user_input_at s)
     (sentence_buffer s) (cur_tutorial s) (step_index s) (timer_on s) (tts_st s)
     (active s) (requests s) (audio_out s) (emitted s ++ [Emit name p]) (tool_log s).
Definition add_tool_call (name id : string) (s : state) : state :=
  St (conv s) (interrupted s) (is_processing s) (has_pending s) (rec_running s)
     (rec_cancelled s) (speaking s) (latest_frame s) (last_user_input_at s)
     (sentence_buffer s) (cur_tutorial s) (step_index s) (timer_on s) (tts_st s)
     (active s) (requests s) (audio_out s) (emitted s) (tool_log s ++ [(name, id)]).

Definition push (m : msg) (s : state) : state := set_conv (conv s ++ [m]) s.

Definition set_interrupted (b : bool) (s : state) : state :=
  set_flags b (is_processing s) (has_pending s) (rec_running s) (rec_cancelled s) (speaking s) s.
Definition set_processing (b : bool) (s : state) : state :=
  set_flags (interrupted s) b (has_pending s) (rec_running s) (rec_cancelled s) (speaking s) s.
Definition set_pending (b : bool) (s : state) : state :=
  set_flags (interrupted s) (is_processing s) b (rec_running s) (rec_cancelled s) (speaking s) s.
Definition set_speaking (b : bool) (s : state) : state :=
  set_flags (interrupted s) (is_processing s) (has_pending s) (rec_running s) (rec_cancelled s) b s.

(** The tag given to TTS text: the number of Claude requests issued so far. *)
Definition cur_tag (s : state) : nat := length (requests s).

(* ------------------------------------------------------------------ *)
(** ** Tool handlers ([handleToolCall]) *)

Fixpoint digits (fuel n : nat) (acc : string) : string :=
  match fuel with
  | 0 => acc
  | S f =>
      let acc' := String (ascii_of_nat (48 + n mod 10)) acc in
      if n <? 10 then acc' else digits f (n / 10) acc'
  end.

(** [`${n}`] for a natural number. *)
Definition nat_to_string (n : nat) : string := digits (S n) n "".

Definition jnum (j : json) : Z := match j with JNum n => n | _ => 0 end.
Definition jstr (j : json) : string := match j with JStr s => s | _ => "" end.

(** [a || b] on strings. *)
Definition or_default (s d : string) : string := if String.eqb s "" then d else s.

(** The result of a dispatched tool: returned after microtasks only, or
    waiting for [this.lessonCreator.generate(...)]. *)
Inductive tool_step :=
| ToolNow (s : state) (result : json)
| ToolAwait (s : state).

Definition handle_progressed_step (args : json) (s : state) : tool_step :=
  let prev := jget "previous_step" args in
  let cur := jnum (jget "current_step" args) in
  let idx := (cur - 1)%Z in
  let s := set_tutorial (cur_tutorial s) idx s in
  let total := match cur_tutorial s with
               | Some t => Z.of_nat (t_total t)
               | None => 0%Z
               end in
  let s := add_emit "step_update"
             (JObj [("previousStep", prev); ("currentStep", JNum cur);
                    ("totalSteps", JNum total)]) s in
  let step := match cur_tutorial s with
              | Some t => if (idx <? 0)%Z then None
                          else nth_error (t_steps t) (Z.to_nat idx)
              | None => None
              end in
  ToolNow s (JObj [("success", JBool true); ("currentStep", JNum cur);
                   ("stepTitle", JStr (or_default (match step with
                                                   | Some st => st_title st
                                                   | None => "" end) "Unknown"));
                   ("stepInstruction", JStr (match step with
                                             | Some st => st_instruction st
                                             | None => "" end))]).

Definition handle_suggested_hotkey (args : json) (s : state) : tool_step :=
  let s := add_emit "hotkey_display"
             (JObj [("keyCombo", jget "key_combo" args);
                    ("description", jget "description" args)]) s in
  ToolNow s (JObj [("displayed", JBool true)]).

(** [handleToolCall(name, args, id)]: the dispatch table. *)
Definition handle_tool_call (name : string) (args : json) (s : state) : tool_step :=
  if String.eqb name "Create_Tutorial" then
    ToolAwait (add_emit "tutorial_loading"
                 (JObj [("objectLabel", jget "object_label" args)]) s)
  else if String.eqb name "Progressed_Step" then handle_progressed_step args s
  else if String.eqb name "Suggested_HotKey" then handle_suggested_hotkey args s
  else ToolNow s (JObj [("error", JStr ("Unknown tool: " ++ name)%string)]).

(** The rest of [handleCreateTutorial] once [generate] has settled. *)
Definition create_tutorial_done (r : tut_outcome) (s : state) : state * json :=
  match r with
  | TutOk t =>
      let s := set_tutorial (Some t) 0 s in
      let s := add_emit "tutorial_ready" (JStr (t_label t)) s in
      (s, JObj [("success", JBool true);
                ("message", JStr ("Tutorial is ready! Announce it to the user enthusiastically. Tell them you'll be building a "
                                  ++ t_label t ++ " in " ++ nat_to_string (t_total t)
                                  ++ " steps, and ask if they're ready to start.")%string);
                ("objectLabel", JStr (t_label t));
                ("totalSteps", JNum (Z.of_nat (t_total t)));
                ("steps", JArr (map (fun st => JObj [("stepNumber", JNum (st_number st));
                                                     ("title", JStr (st_title st));
                                                     ("instruction", JStr (st_instruction st))])
                                    (t_steps t)))])
  | TutErr e =>
      let s := add_emit "tutorial_error" (JObj [("error", JStr e)]) s in
      (s, JObj [("success", JBool false); ("error", JStr e)])
  end.

Definition Z_to_string (z : Z) : string :=
  if (z <? 0)%Z then ("-" ++ nat_to_string (Z.to_nat (- z)))%string
  else nat_to_string (Z.to_nat z).

Definition nl : string := String (ascii_of_nat 10) EmptyString.

(** [conv[conv.length - 1]?.role === 'user'] *)
Definition last_is_user (h : list msg) : bool :=
  match rev h with
  | m :: _ => role_eqb (role_of m) User
  | [] => false
  end.

(** [response.content.find(c => c.type === 'text')?.text || ''] *)
Definition first_text (resp : list block) : string :=
  match find is_text resp with
  | Some (BText t) => t
  | _ => ""
  end.

(* ------------------------------------------------------------------ *)
(** ** Environment events *)

Inductive event :=
| EvStartSession                     (* socket 'start_session' *)
| EvPartial (text : string)          (* STT 'partial_transcript' *)
| EvCommitted (text : string) (now : Z) (* STT 'committed_transcript' at time [now] *)
| EvFrame (data : string)            (* socket 'frame' *)
| EvPlaybackEnded                    (* socket 'audio_playback_ended' *)
| EvTick (now : Z)                   (* the recurring-check interval fires *)
| EvDelta (chunk : string)           (* 'text' event of the in-flight stream *)
| EvResponse (content : list block)  (* the in-flight Claude request resolves *)
| EvResponseError                    (* ... rejects (network error, abort) *)
| EvTutorial (r : tut_outcome)       (* [lessonCreator.generate] settles *)
| EvTTSOpen (sid : nat)              (* TTS socket [sid] emits 'open' *)
| EvTTSError (sid : nat)             (* ... 'error' *)
| EvTTSClose (sid : nat)             (* ... 'close' *)
| EvTTSAudio (sid k : nat)           (* ... a message with audio for its [k]-th input *)
| EvPoll (i : nat)                   (* the [i]-th parked poller checks [connected] *)
| EvPollTimeout (i : nat).           (* ... reaches its 10 s timeout *)

Section Orchestrator.

Variable cfg : config.

(** What [startSession] does after its awaited first cycle:
    [this.startRecurringCheck()] and [emit('session_started')]. *)
Definition session_continue (from_start : bool) (s : state) : state :=
  if from_start then
    add_emit "session_started" JNull
             (if cfg_rec_enabled cfg then set_timer true s else s)
  else s.

(** Entry of [sendToClaudeAndSpeak(isContinuation)] up to its first await. *)
Definition main_start (is_cont from_start : bool) (s : state) : state :=
  if is_processing s then session_continue from_start s
  else
    let s := set_interrupted false (set_processing true s) in
    let h := prune_old_images (sanitize (conv s)) in
    let s := set_buffer "" (set_conv h s) in
    set_active (Some (TMain (MStream is_cont "") from_start)) (add_request ReqMain h s).

(** The [finally] block of [sendToClaudeAndSpeak]. *)
Definition main_finally (from_start : bool) (s : state) : state :=
  let s := set_processing false s in
  if has_pending s then main_start false from_start (set_active None (set_pending false s))
  else session_continue from_start (set_active None s).

(** The [while] loop of [handleTextChunkForTTS]; each round removes at
    least two characters from the buffer, so its length bounds the rounds. *)
Fixpoint sentence_loop (fuel : nat) (s : state) : state :=
  match fuel with
  | 0 => s
  | S f =>
      match sentence_end (sentence_buffer s) with
      | None => s
      | Some i =>
          if interrupted s then s
          else
            let buf := sentence_buffer s in
            let sentence := substring 0 (i + 2) buf in
            let '(t, _) := tts_call_send (CallChunk sentence) (WText sentence)
                                         (cur_tag s) false (tts_st s) in
            sentence_loop f (set_buffer (drop_str (i + 2) buf) (set_tts t s))
      end
  end.

Definition handle_text_chunk_for_tts (chunk : string) (s : state) : state :=
  if interrupted s then s
  else
    let s := set_buffer (sentence_buffer s ++ chunk)%string s in
    sentence_loop (String.length (sentence_buffer s)) s.

(** The [onTextChunk] callback passed to [getStreamingResponse]. *)
Definition main_on_delta (is_cont : bool) (full : string) (fs : bool)
    (chunk : string) (s : state) : state :=
  if interrupted s then s
  else set_active (Some (TMain (MStream is_cont (full ++ chunk)%string) fs))
                  (handle_text_chunk_for_tts chunk s).

(** After the tool loop: one user turn with all results, then the
    recursive call with [isContinuation = true]. *)
Definition main_after_tools (fs : bool) (results : list block) (s : state) : state :=
  if negb (interrupted s) then
    let s := push (Msg User (CBlocks results)) s in
    main_start true fs (set_active None (set_processing false s))
  else main_finally fs s.

(** [for (const toolUse of toolUseBlocks)] in [sendToClaudeAndSpeak]. *)
Fixpoint main_tools (fs : bool) (tools results : list block) (s : state) : state :=
  match tools with
  | [] => main_after_tools fs results s
  | t :: rest =>
      if interrupted s then main_after_tools fs results s
      else
        match t with
        | BToolUse id name input =>
            match handle_tool_call name input (add_tool_call name id s) with
            | ToolNow s' r => main_tools fs rest (results ++ [BToolResult id r]) s'
            | ToolAwait s' => set_active (Some (TMain (MToolWait id rest results) fs)) s'
            end
        | _ => main_tools fs rest results s
        end
  end.

(** From the end of the flush [await] to the tool loop. *)
Definition main_after_flush (is_cont : bool) (full : string) (resp : list block)
    (fs reset : bool) (s : state) : state :=
  let s := if reset then set_buffer "" s else s in
  let tag := cur_tag s in
  let s := set_tts (tts_close_stream tag (tts_flush tag (tts_st s))) s in
  let s := if String.eqb full "" then s
           else add_emit (if is_cont then "agent_text_continue" else "agent_text") (JStr full) s in
  let s := push (Msg Assistant (CBlocks resp)) s in
  match filter is_tool_use resp with
  | [] => main_finally fs s
  | tools => main_tools fs tools [] s
  end.

(** [getStreamingResponse] resolved with [response]. *)
Definition main_after_stream (is_cont : bool) (full : string) (resp : list block)
    (fs : bool) (s : state) : state :=
  if interrupted s then main_finally fs s
  else if nonblank (sentence_buffer s) then
    let chunk := (sentence_buffer s ++ " ")%string in
    let '(t, parked) := tts_call_send (CallChunk chunk) (WText chunk) (cur_tag s) true (tts_st s) in
    let s := set_tts t s in
    if parked then set_active (Some (TMain (MFlushWait is_cont full resp) fs)) s
    else main_after_flush is_cont full resp fs true s
  else main_after_flush is_cont full resp fs false s.

(* ------------------------------------------------------------------ *)
(** ** The recurring-check timer callback *)

Definition MAX_TOOL_ROUNDS : nat := 3.

(** The [finally] block of the timer callback. *)
Definition rec_finally (s : state) : state :=
  let s := set_active None
             (set_flags (interrupted s) false (has_pending s) false false (speaking s) s) in
  if has_pending s then main_start false false (set_pending false s) else s.

(** The last cancellation check and the commit of [messagesToCommit]. *)
Definition rec_final (commit : list msg) (s : state) : state :=
  if rec_cancelled s then rec_finally s
  else rec_finally (set_conv (conv s ++ commit) s).

(** After the tool loop of a round. *)
Definition rec_after_tools (commit : list msg) (first : bool) (round : nat)
    (results : list block) (s : state) : state :=
  let commit := commit ++ [Msg User (CBlocks results)] in
  if Nat.eqb round MAX_TOOL_ROUNDS then rec_final commit s
  else if rec_cancelled s then rec_finally s
  else set_active (Some (TRec (RFollowUp commit first round)))
                  (add_request ReqFollowUp (conv s ++ commit) s).

Fixpoint rec_tools (commit : list msg) (first : bool) (round : nat)
    (tools results : list block) (s : state) : state :=
  match tools with
  | [] => rec_after_tools commit first round results s
  | t :: rest =>
      if rec_cancelled s then rec_finally s
      else
        match t with
        | BToolUse id name input =>
            match handle_tool_call name input (add_tool_call name id s) with
            | ToolNow s' r => rec_tools commit first round rest (results ++ [BToolResult id r]) s'
            | ToolAwait s' =>
                set_active (Some (TRec (RToolWait commit first round id rest results))) s'
            end
        | _ => rec_tools commit first round rest results s
        end
  end.

(** [if (toolUseBlocks.length === 0) break;] and the tool loop. *)
Definition rec_after_tts (commit : list msg) (tools : list block) (round : nat)
    (first : bool) (s : state) : state :=
  match tools with
  | [] => rec_final commit s
  | _ => rec_tools commit first round tools [] s
  end.

(** After [await this.tts.sendText(text)]. *)
Definition rec_after_text (commit : list msg) (tools : list block) (round : nat)
    (s : state) : state :=
  if rec_cancelled s then rec_finally s
  else rec_after_tts commit tools round false s.

(** One round of [for (let round = 0; round <= MAX_TOOL_ROUNDS; round++)]. *)
Definition rec_round (commit : list msg) (resp : list block) (first : bool)
    (round : nat) (s : state) : state :=
  if rec_cancelled s then rec_finally s
  else
    let text := first_text resp in
    let tools := filter is_tool_use resp in
    if includes "[NO_GUIDANCE_NEEDED]" text then rec_finally s
    else
      let commit := commit ++ [Msg Assistant (CBlocks resp)] in
      if String.eqb text "" then rec_after_tts commit tools round first s
      else
        let s := add_emit (if first then "agent_text" else "agent_text_continue") (JStr text) s in
        let '(t, parked) := tts_call_send (CallText text) (WFlushText (text ++ " ")%string)
                                          (cur_tag s) true (tts_st s) in
        let s := set_tts t s in
        if parked then set_active (Some (TRec (RTTSWait commit tools round))) s
        else rec_after_text commit tools round s.

Definition check_prompt (s : state) : string :=
  let label := if cfg_figma cfg then "Figma canvas" else "Blender screen" in
  let base := ("[RECURRING_SCREEN_CHECK] Look at the user's current " ++ label
               ++ ". If they seem stuck or could use a tip, provide brief guidance. If everything looks fine, respond with exactly: [NO_GUIDANCE_NEEDED]")%string in
  match cur_tutorial s with
  | Some t =>
      let title := match (if (step_index s <? 0)%Z then None
                          else nth_error (t_steps t) (Z.to_nat (step_index s))) with
                   | Some st => st_title st
                   | None => "undefined"
                   end in
      (base ++ nl ++ "Current step " ++ Z_to_string (step_index s + 1) ++ ": " ++ title)%string
  | None => base
  end.

(** The timer callback up to its first await. *)
Definition on_tick (now : Z) (s : state) : state :=
  if negb (timer_on s) then s
  else if rec_running s || speaking s || is_processing s
          || (now - last_user_input_at s <? cfg_idle_ms cfg)%Z then s
  else
    match latest_frame s with
    | None => s
    | Some _ =>
        let s := set_flags (interrupted s) true (has_pending s) true false (speaking s) s in
        let uc := build_user_content (latest_frame s) (check_prompt s) in
        let h := prune_old_images (sanitize (conv s)) in
        let s := set_conv h s in
        set_active (Some (TRec (RInitial uc))) (add_request ReqCheck (h ++ [Msg User uc]) s)
    end.

(* ------------------------------------------------------------------ *)
(** ** Event handlers *)

(** [handleInterruption]; [this.claude.abortStream()] makes the in-flight
    stream reject later, which the environment delivers as
    [EvResponseError] (or a late [EvResponse]). *)
Definition handle_interruption (s : state) : state :=
  let s := set_flags true (is_processing s) (has_pending s) (rec_running s) true (speaking s) s in
  let s := set_tts (tts_interrupt (tts_st s)) s in
  let s := add_emit "interrupt" JNull s in
  set_speaking false s.

Definition on_partial (text : string) (s : state) : state :=
  if negb (nonblank text) then s
  else if speaking s || is_processing s || rec_running s then handle_interruption s
  else s.

(** [onCommittedTranscript] up to its await. *)
Definition on_committed (text : string) (now : Z) (s : state) : state :=
  if negb (nonblank text) then s
  else
    let s := set_last_input now s in
    let s := if last_is_user (conv s)
             then push (Msg Assistant (CStr interrupted_placeholder)) s else s in
    let s := push (Msg User (build_user_content (latest_frame s) text)) s in
    let s := add_emit "user_text" (JStr text) s in
    let s := handle_interruption s in
    if is_processing s then set_pending true s
    else main_start false false s.

(** [onTTSAudioChunk], reached through the 'message' listener of the
    client's current socket. *)
Definition on_tts_audio (sid k : nat) (s : state) : state :=
  if socket_eqb (tts_ws (tts_st s)) sid then
    match nth_error (wire_of sid (tts_st s)) k with
    | Some (m, tag) =>
        if interrupted s then s
        else set_speaking true (add_audio (sid, m, tag) s)
    | None => s
    end
  else s.

(** [startSession]: the first call pushes the greeting turn and awaits a
    cycle; later calls are reconnects. *)
Definition on_start_session (s : state) : state :=
  match conv s with
  | [] => main_start false true (push (Msg User (CStr "[SESSION_START]")) s)
  | _ => add_emit "session_started" JNull s
  end.

(** The running task resumes after a parked TTS call settles. *)
Definition resume_tts (k : option wake) (s : state) : state :=
  match k, active s with
  | Some WakeOk, Some (TMain (MFlushWait ic full resp) fs) => main_after_flush ic full resp fs true s
  | Some WakeErr, Some (TMain (MFlushWait _ _ _) fs) => main_finally fs s
  | Some WakeOk, Some (TRec (RTTSWait commit tools round)) => rec_after_text commit tools round s
  | Some WakeErr, Some (TRec (RTTSWait _ _ _)) => rec_finally s
  | _, _ => s
  end.

Definition step (s : state) (e : event) : state :=
  match e with
  | EvStartSession => on_start_session s
  | EvPartial t => on_partial t s
  | EvCommitted t now => on_committed t now s
  | EvFrame d => set_frame (Some d) s
  | EvPlaybackEnded => set_speaking false s
  | EvTick now => on_tick now s
  | EvDelta c =>
      match active s with
      | Some (TMain (MStream ic full) fs) => main_on_delta ic full fs c s
      | _ => s
      end
  | EvResponse resp =>
      match active s with
      | Some (TMain (MStream ic full) fs) => main_after_stream ic full resp fs s
      | Some (TRec (RInitial uc)) =>
          if rec_cancelled s then rec_finally s
          else rec_round [Msg User uc] resp true 0 s
      | Some (TRec (RFollowUp commit first round)) => rec_round commit resp first (S round) s
      | _ => s
      end
  | EvResponseError =>
      match active s with
      | Some (TMain (MStream _ _) fs) => main_finally fs s
      | Some (TRec (RInitial _)) | Some (TRec (RFollowUp _ _ _)) => rec_finally s
      | _ => s
      end
  | EvTutorial r =>
      match active s with
      | Some (TMain (MToolWait id rest results) fs) =>
          let '(s', j) := create_tutorial_done r s in
          main_tools fs rest (results ++ [BToolResult id j]) s'
      | Some (TRec (RToolWait commit first round id rest results)) =>
          let '(s', j) := create_tutorial_done r s in
          rec_tools commit first round rest (results ++ [BToolResult id j]) s'
      | _ => s
      end
  | EvTTSOpen sid =>
      let '(t, k) := tts_on_open sid (tts_st s) in resume_tts k (set_tts t s)
  | EvTTSError sid =>
      let '(t, k) := tts_on_error sid (tts_st s) in resume_tts k (set_tts t s)
  | EvTTSClose sid => set_tts (tts_on_close sid (tts_st s)) s
  | EvTTSAudio sid k => on_tts_audio sid k s
  | EvPoll i =>
      let '(t, k) := tts_on_poll false i (tts_st s) in resume_tts k (set_tts t s)
  | EvPollTimeout i =>
      let '(t, k) := tts_on_poll true i (tts_st s) in resume_tts k (set_tts t s)
  end.

Fixpoint run (s : state) (tr : list event) : state :=
  match tr with
  | [] => s
  | e :: r => run (step s e) r
  end.

End Orchestrator.

(* ================================================================== *)
(** * Vocabulary of the properties *)

Definition blender_cfg : config := Config false true 10000.

(** Top-level alternation of roles: no two neighbouring turns share a role. *)
Fixpoint alternates (h : list msg) : bool :=
  match h with
  | m1 :: ((m2 :: _) as t) => negb (role_eqb (role_of m1) (role_of m2)) && alternates t
  | _ => true
  end.

(** The texts handed to the synthesizer by [sendTextChunk] and [sendText]. *)
Fixpoint sent_texts (cs : list tts_call) : list string :=
  match cs with
  | [] => []
  | CallChunk t :: r | CallText t :: r => t :: sent_texts r
  | _ :: r => sent_texts r
  end.

(** Number of main-cycle generation requests. *)
Definition count_main (rs : list (req_kind * list msg)) : nat :=
  length (filter (fun r => match fst r with ReqMain => true | _ => false end) rs).

(** The states a trace passes through, after each event. *)
Fixpoint run_states (cfg : config) (s : state) (tr : list event) : list state :=
  match tr with
  | [] => []
  | e :: r => let s' := step cfg s e in s' :: run_states cfg s' r
  end.

(** Number of image-bearing turns. *)
Definition count_images (h : list msg) : nat := length (filter image_bearing h).

(** The non-image blocks a content denotes: a string content is one text
    block. *)
Definition view_blocks (c : content) : list block :=
  match c with CStr t => [BText t] | CBlocks bs => bs end.

(** Strip images from the first [c] image-bearing turns. *)
Fixpoint strip_first (c : nat) (h : list msg) : list msg :=
  match h with
  | [] => []
  | m :: t =>
      if image_bearing m then
        (if 0 <? c then strip_images m else m) :: strip_first (c - 1) t
      else m :: strip_first c t
  end.

(** Scenario traces. *)

(** A partial transcript interrupts the greeting cycle, whose stream then
    rejects; a frame arrives and the idle timer fires. *)
Definition trace_partial_then_check : list event :=
  [EvStartSession; EvPartial "wait"; EvResponseError; EvFrame "F"; EvTick 20000].

(** Greeting answered and spoken, then an idle check whose first answer calls
    a tool and whose follow-up answer is [NO_GUIDANCE_NEEDED]. *)
Definition trace_greeting : list event :=
  [EvStartSession; EvResponse [BText "Hi."]; EvTTSOpen 0; EvFrame "F"; EvTick 20000].
Definition trace_check_no_guidance : list event :=
  [EvResponse [BToolUse "t1" "Suggested_HotKey" (JObj [("key_combo", JStr "G")])];
   EvResponse [BText "[NO_GUIDANCE_NEEDED]"]].

(** Two sentences of the greeting are dispatched while the first socket is
    still opening; the user barges in; the next cycle opens a second socket,
    on which the poller of the interrupted cycle then sends its sentence. *)
Definition trace_stale_poller : list event :=
  [EvStartSession; EvDelta "Hi! Let me help. "; EvPartial "no"; EvResponseError;
   EvCommitted "no thanks" 1000; EvDelta "Okay. "; EvTTSOpen 1; EvPoll 1; EvTTSAudio 1 2].

(** The final flush of the greeting opens a socket; the user barges in before
    it opens, and commits an utterance. *)
Definition trace_flush_barge_in : list event :=
  [EvStartSession; EvDelta "Hi there."; EvResponse [BText "Hi there."];
   EvPartial "wait"; EvCommitted "wait a second" 5000].

Definition hello_deltas (resp : list block) : list event :=
  [EvDelta "Hello there. How "; EvDelta "are you? Great."; EvResponse resp].

Definition hello_resp : list block := [BText "Hello there. How are you? Great."].

(** After an uncommitted interruption, an idle check speaks its answer. *)
Definition trace_interrupt_only : list event :=
  [EvStartSession; EvPartial "wait"; EvResponseError].
Definition trace_idle_check_speaks : list event :=
  [EvFrame "F"; EvTick 20000; EvResponse [BText "Try the knife tool."];
   EvTTSOpen 0; EvTTSAudio 0 1].



(** The ids of the tool uses, and of the tool results, of a block list. *)
Definition use_ids (tools : list block) : list string :=
  flat_map (fun b => match b with BToolUse id _ _ => [id] | _ => [] end) tools.

Definition result_ids (rs : list block) : list string :=
  flat_map (fun b => match b with BToolResult id _ => [id] | _ => [] end) rs.

(** Two states that agree on the history, the requests and the cycle flags. *)
Definition calm (s s' : state) : Prop :=
  conv s' = conv s /\ requests s' = requests s /\ interrupted s' = interrupted s /\
  rec_cancelled s' = rec_cancelled s /\ has_pending s' = has_pending s /\
  is_processing s' = is_processing s.

(** ... and on the tool log. *)
Definition calm_log (s s' : state) : Prop := calm s s' /\ tool_log s' = tool_log s.

(** The turns an event handler pushes to the history itself: the greeting
    turn of the first [startSession], and the user turn of a committed
    transcript (after a placeholder assistant turn when the history ends
    with a user turn). *)
Definition handler_pushes (s : state) (e : event) : nat :=
  match e with
  | EvStartSession => match conv s with [] => 1 | _ => 0 end
  | EvCommitted t _ =>
      if nonblank t then (if last_is_user (conv s) then 2 else 1) else 0
  | _ => 0
  end.

(** The provisional turns a recurring check holds at a suspension point. *)
Definition pc_commit (pc : rec_pc) : list msg :=
  match pc with
  | RInitial uc => [Msg User uc]
  | RTTSWait c _ _ | RToolWait c _ _ _ _ _ | RFollowUp c _ _ => c
  end.

(** No recurring check is suspended. *)
Definition not_rec (s : state) : Prop := forall pc, active s <> Some (TRec pc).

(** A queued utterance during a check implies the check was cancelled. *)
Definition pending_ok (s : state) : Prop := has_pending s = true -> rec_cancelled s = true.

(** Every waiter that owns a socket owns socket [sid]. *)
Definition owners_on (sid : nat) (ws : list waiter) : Prop :=
  Forall (fun w => w_owner w = true -> w_socket w = Some sid) ws.

(** A main cycle parked in the final flush on socket [sid], which is no longer
    the client's socket, with a queued utterance. *)
Definition stuck (sid : nat) (s : state) : Prop :=
  (exists ic full resp fs, active s = Some (TMain (MFlushWait ic full resp) fs)) /\
  is_processing s = true /\ has_pending s = true /\ conv s <> [] /\
  tts_ws (tts_st s) <> Some sid /\ owners_on sid (tts_waiters (tts_st s)).

(** From [s] to [s']: no main request is withdrawn, and while no main request
    is issued an interrupted state stays interrupted and forwards no audio. *)
Definition Pres (s s' : state) : Prop :=
  count_main (requests s) <= count_main (requests s') /\
  (count_main (requests s') = count_main (requests s) -> interrupted s = true ->
   interrupted s' = true /\ audio_out s' = audio_out s).

(** A user turn carrying tool results. *)
Definition carries_results (m : msg) : bool :=
  role_eqb (role_of m) User && existsb is_tool_result (blocks_of (content_of m)).

(** Equality of id lists. *)
Definition ids_eqb (a b : list string) : bool :=
  if list_eq_dec string_dec a b then true else false.

(** [m] answers the assistant turn [a]: its result ids are [a]'s tool-use
    ids, in order. *)
Definition answers (a m : msg) : bool :=
  role_eqb (role_of a) Assistant &&
  ids_eqb (result_ids (blocks_of (content_of m))) (use_ids (blocks_of (content_of a))).

(** A turn carrying tool results must answer the turn just before it. *)
Definition pair_ok (prev : option msg) (m : msg) : bool :=
  negb (carries_results m) || match prev with Some a => answers a m | None => false end.

Fixpoint matched_from (prev : option msg) (h : list msg) : bool :=
  match h with
  | [] => true
  | m :: t => pair_ok prev m && matched_from (Some m) t
  end.

(** Every tool-result turn of the history answers, id for id, the assistant
    turn just before it. *)
Definition results_matched (h : list msg) : bool := matched_from None h.

(** The sanitization pass as the specification words it: an assistant turn
    with tool uses that is not immediately followed by a user turn carrying
    the matching results (same ids, same order) is replaced by its text, or by
    the placeholder; every other turn is kept. [normalized] is the
    replacement of [sanitize_msg]. *)
Definition normalized (m : msg) : msg :=
  let text_blocks := filter is_text (blocks_of (content_of m)) in
  if (0 <? length text_blocks)
     && existsb (fun b => match b with BText t => nonblank t | _ => false end) text_blocks
  then match text_blocks with
       | [BText t] => Msg Assistant (CStr t)
       | _ => Msg Assistant (CBlocks text_blocks)
       end
  else Msg Assistant (CStr interrupted_placeholder).

Definition followed_by_matching (m : msg) (next : option msg) : bool :=
  match next with
  | Some n => role_eqb (role_of n) User &&
              ids_eqb (result_ids (blocks_of (content_of n))) (use_ids (blocks_of (content_of m)))
  | None => false
  end.

Fixpoint sanitize_spec (h : list msg) : list msg :=
  match h with
  | [] => []
  | m :: t =>
      (if role_eqb (role_of m) Assistant && existsb is_tool_use (blocks_of (content_of m))
          && negb (followed_by_matching m (hd_error t))
       then normalized m else m) :: sanitize_spec t
  end.

(** Two turns with the same role and the same tool ids. *)
Definition msg_sim (m m' : msg) : Prop :=
  role_of m' = role_of m /\ carries_results m' = carries_results m /\
  result_ids (blocks_of (content_of m')) = result_ids (blocks_of (content_of m)) /\
  use_ids (blocks_of (content_of m')) = use_ids (blocks_of (content_of m)).

Definition opt_sim (p p' : option msg) : Prop :=
  match p, p' with
  | Some a, Some a' => msg_sim a a'
  | None, None => True
  | _, _ => False
  end.

(** The turns committed by a recurring check end with its last assistant turn,
    either without tool uses, or followed by one user turn holding the results
    of all its tool uses in order. *)
Definition complete_commit (c : list msg) : Prop :=
  exists pre resp tail, c = pre ++ Msg Assistant (CBlocks resp) :: tail /\
    ((tail = [] /\ filter is_tool_use resp = []) \/
     (exists rs, tail = [Msg User (CBlocks rs)] /\ forallb is_tool_result rs = true /\
                 result_ids rs = use_ids resp)).

(** The shape of the provisional turns of a suspended recurring check. *)
Definition pc_ok (pc : rec_pc) : Prop :=
  results_matched (pc_commit pc) = true /\
  match pc with
  | RInitial _ | RFollowUp _ _ _ => True
  | RTTSWait c tools _ =>
      exists pre resp, c = pre ++ [Msg Assistant (CBlocks resp)] /\ tools = filter is_tool_use resp
  | RToolWait c _ _ id rest results =>
      exists pre resp, c = pre ++ [Msg Assistant (CBlocks resp)] /\
        forallb is_tool_result results = true /\
        use_ids resp = result_ids results ++ id :: use_ids rest
  end.

(** A main cycle waiting for a tool has the assistant turn last in the
    history, and the results collected so far answer its first tool uses. *)
Definition tw_ok (s : state) : Prop :=
  forall id rest results fs,
    active s = Some (TMain (MToolWait id rest results) fs) -> interrupted s = false ->
    exists pre resp, conv s = pre ++ [Msg Assistant (CBlocks resp)] /\
      forallb is_tool_result results = true /\
      use_ids resp = result_ids results ++ id :: use_ids rest.

(** The invariant on histories kept by every event. *)
Definition hist_ok (s : state) : Prop :=
  results_matched (conv s) = true /\ tw_ok s /\
  (forall pc, active s = Some (TRec pc) -> pc_ok pc).

(** The assistant turn an event adds to a recurring check. *)
Definition step_turns (e : event) : list msg :=
  match e with EvResponse resp => [Msg Assistant (CBlocks resp)] | _ => [] end.

(** How a recurring check holding the provisional turns [c] and the new turns
    [p] leaves [s] for [s']: still suspended, with the history unchanged and
    the provisional turns extended; or ended, either with no turn appended
    (cancelled, or for the reason [why]), or, not cancelled, with all of
    [c ++ p ++ R] appended at once. *)
Definition rec_end (why : Prop) (c p : list msg) (s s' : state) : Prop :=
  (forall pc', active s' = Some (TRec pc') ->
     conv s' = conv s /\ rec_cancelled s' = rec_cancelled s /\ pc_ok pc' /\
     exists d, pc_commit pc' = c ++ d) /\
  (not_rec s' ->
     (length (conv s') = length (conv s) /\ (rec_cancelled s = true \/ why)) \/
     (rec_cancelled s = false /\
      exists R, (R = [] \/ exists rs, R = [Msg User (CBlocks rs)]) /\
        complete_commit (c ++ p ++ R) /\
        (has_pending s = false -> active s' = None /\ conv s' = conv s ++ c ++ p ++ R))) /\
  (results_matched (conv s) = true -> hist_ok s').

(** One event received while a recurring check is suspended at [pc]. Apart
    from the turns the handler pushes for the user itself: if the check stays
    suspended, no turn is appended, a cancelled check stays cancelled, and the
    provisional turns only grow; if it ends, either no turn is appended (it was
    cancelled, the call failed, the model answered [NO_GUIDANCE_NEEDED], or the
    synthesizer's socket for its text failed), or, not cancelled, all its
    provisional turns, the turn of this event and possibly one result turn are
    appended together, forming a complete exchange. *)
Definition rec_goal (cfg : config) (s : state) (e : event) (pc : rec_pc) : Prop :=
  let s' := step cfg s e in
  (forall pc', active s' = Some (TRec pc') ->
     length (conv s') = length (conv s) + handler_pushes s e /\
     (rec_cancelled s = true -> rec_cancelled s' = true) /\
     pc_ok pc' /\ exists d, pc_commit pc' = pc_commit pc ++ d) /\
  (not_rec s' ->
     (length (conv s') = length (conv s) + handler_pushes s e /\
      (rec_cancelled s = true \/ e = EvResponseError \/
       (exists resp, e = EvResponse resp /\ includes "[NO_GUIDANCE_NEEDED]" (first_text resp) = true) \/
       (exists sid, e = EvTTSError sid))) \/
     (rec_cancelled s = false /\ handler_pushes s e = 0 /\ active s' = None /\
      exists R, (R = [] \/ exists rs, R = [Msg User (CBlocks rs)]) /\
        conv s' = conv s ++ pc_commit pc ++ step_turns e ++ R /\
        complete_commit (pc_commit pc ++ step_turns e ++ R))).

(** A queued utterance implies a cancelled check and a busy orchestrator. *)
Definition pflags (s : state) : Prop :=
  (has_pending s = true -> rec_cancelled s = true) /\ (has_pending s = true -> is_processing s = true).

(** The flags kept by every event: a suspended check is running and holds the
    processing flag. *)
Definition flags_ok (s : state) : Prop :=
  pflags s /\
  (forall pc, active s = Some (TRec pc) -> rec_running s = true /\ is_processing s = true).

Definition rec_flags (s : state) : Prop := rec_running s = true /\ is_processing s = true /\ pflags s.




(** * Properties *)

(* ------------------------------------------------------------------ *)
(** ** Pruning of old images *)

Section Prune.

Lemma image_indices_from_length (b : nat) (h : list msg) :
  length (image_indices_from b h) = count_images h.
Proof.
  revert b; induction h as [|m t IH]; intros b; [reflexivity|].
  unfold count_images in *; simpl.
  destruct (image_bearing m); simpl; rewrite IH; reflexivity.
Qed.

Lemma image_indices_from_ge (b : nat) (h : list msg) :
  Forall (fun j => b <= j) (image_indices_from b h).
Proof.
  revert b; induction h as [|m t IH]; intros b; simpl; [constructor|].
  specialize (IH (S b)).
  assert (Hw : Forall (fun j => b <= j) (image_indices_from (S b) t)).
  { eapply Forall_impl; [|exact IH]. intros; simpl in *; lia. }
  destruct (image_bearing m); [constructor; [lia|]|]; exact Hw.
Qed.

Lemma existsb_eqb_firstn_absent (b c : nat) (l : list nat) :
  Forall (fun j => S b <= j) l -> existsb (Nat.eqb b) (firstn c l) = false.
Proof.
  revert c; induction l as [|x l IH]; intros c Hf; destruct c; simpl; auto.
  inversion Hf; subst.
  destruct (Nat.eqb_spec b x); [lia|]. simpl. apply IH; assumption.
Qed.

Lemma strip_at_skip (x : nat) (l : list nat) (i : nat) (h : list msg) :
  x < i -> strip_at (x :: l) i h = strip_at l i h.
Proof.
  revert i; induction h as [|m t IH]; intros i Hx; simpl; [reflexivity|].
  destruct (Nat.eqb_spec i x); [lia|]. simpl.
  rewrite IH by lia. reflexivity.
Qed.

Lemma strip_at_first (c b : nat) (h : list msg) :
  strip_at (firstn c (image_indices_from b h)) b h = strip_first c h.
Proof.
  revert b c; induction h as [|m t IH]; intros b c; [reflexivity|].
  simpl. destruct (image_bearing m) eqn:Hm.
  - destruct c as [|c].
    + simpl. f_equal. rewrite <- (IH (S b) 0). reflexivity.
    + simpl. rewrite Nat.eqb_refl. simpl. f_equal.
      rewrite strip_at_skip by lia. rewrite Nat.sub_0_r. apply IH.
  - rewrite existsb_eqb_firstn_absent by apply image_indices_from_ge.
    f_equal. apply IH.
Qed.

Lemma strip_first_nth (c : nat) (h : list msg) (i : nat) :
  nth_error (strip_first c h) i =
  option_map (fun m => if image_bearing m && (count_images (firstn i h) <? c)
                       then strip_images m else m) (nth_error h i).
Proof.
  revert c i; induction h as [|m t IH]; intros c i; [destruct i; reflexivity|].
  destruct i as [|i]; simpl.
  - destruct (image_bearing m); reflexivity.
  - unfold count_images; simpl.
    destruct (image_bearing m) eqn:Hm; simpl; rewrite IH;
      destruct (nth_error t i) as [m'|]; try reflexivity; simpl; f_equal.
    destruct (image_bearing m'); [|reflexivity]. simpl. unfold count_images.
    destruct (Nat.ltb_spec (length (filter image_bearing (firstn i t))) (c - 1));
    destruct (Nat.ltb_spec (S (length (filter image_bearing (firstn i t)))) c);
    first [reflexivity | lia].
Qed.

Lemma strip_first_length (c : nat) (h : list msg) :
  length (strip_first c h) = length h.
Proof.
  revert c; induction h as [|m t IH]; intros c; simpl; [reflexivity|].
  destruct (image_bearing m); simpl; rewrite IH; reflexivity.
Qed.

Lemma prune_old_images_strip_first (h : list msg) :
  prune_old_images h = strip_first (count_images h - MAX_CONTEXT_IMAGES) h.
Proof.
  unfold prune_old_images, image_indices.
  rewrite image_indices_from_length.
  destruct (Nat.leb_spec (count_images h) MAX_CONTEXT_IMAGES) as [Hle|Hgt].
  - replace (count_images h - MAX_CONTEXT_IMAGES) with 0 by lia.
    clear Hle. induction h as [|m t IH]; simpl; [reflexivity|].
    destruct (image_bearing m); rewrite <- IH; reflexivity.
  - apply strip_at_first.
Qed.

Lemma prune_old_images_length (h : list msg) :
  length (prune_old_images h) = length h.
Proof. rewrite prune_old_images_strip_first. apply strip_first_length. Qed.

End Prune.


(* ------------------------------------------------------------------ *)
(** ** Tool batches *)

Lemma calm_refl s : calm s s.
Proof. repeat split. Qed.

Lemma calm_trans s1 s2 s3 : calm s1 s2 -> calm s2 s3 -> calm s1 s3.
Proof. unfold calm. intuition congruence. Qed.

Ltac calm_tac := repeat split; reflexivity.

Lemma handle_tool_call_calm name args s :
  match handle_tool_call name args s with
  | ToolNow s' _ => String.eqb name "Create_Tutorial" = false /\ calm_log s s'
  | ToolAwait s' => String.eqb name "Create_Tutorial" = true /\ calm_log s s'
  end.
Proof.
  unfold handle_tool_call.
  destruct (String.eqb name "Create_Tutorial"); [split; [reflexivity|calm_tac]|].
  destruct (String.eqb name "Progressed_Step"); [split; [reflexivity|calm_tac]|].
  destruct (String.eqb name "Suggested_HotKey"); split; [reflexivity|calm_tac|reflexivity|calm_tac].
Qed.

Lemma create_tutorial_done_calm r s : calm_log s (fst (create_tutorial_done r s)).
Proof. destruct r; calm_tac. Qed.




(** ** Recurring checks *)

Lemma sanitize_length h : length (sanitize h) = length h.
Proof. induction h as [|m t IH]; simpl; auto. Qed.

Lemma pending_ok_calm s s1 : calm s s1 -> pending_ok s -> pending_ok s1.
Proof. intros [_ [_ [_ [Hr [Hp _]]]]] H. unfold pending_ok. rewrite Hr, Hp. exact H. Qed.

Lemma main_start_length cfg ic fs s : length (conv (main_start cfg ic fs s)) = length (conv s).
Proof.
  unfold main_start. destruct (is_processing s).
  - unfold session_continue. destruct fs; [destruct (cfg_rec_enabled cfg)|]; reflexivity.
  - simpl. rewrite prune_old_images_length, sanitize_length. reflexivity.
Qed.

Lemma calm_set_tts t s : calm s (set_tts t s).
Proof. calm_tac. Qed.

Lemma main_start_rc cfg ic fs s : rec_cancelled (main_start cfg ic fs s) = rec_cancelled s.
Proof.
  unfold main_start, session_continue.
  destruct (is_processing s), fs, (cfg_rec_enabled cfg); reflexivity.
Qed.

(** ** A flush parked on a replaced socket *)

Lemma tts_send_ws m tag t : tts_ws (tts_send m tag t) = tts_ws t.
Proof. unfold tts_send. destruct (tts_ws t) eqn:E; [destruct (tts_connected t)|]; simpl; congruence. Qed.

Lemma tts_send_waiters m tag t : tts_waiters (tts_send m tag t) = tts_waiters t.
Proof. unfold tts_send. destruct (tts_ws t) eqn:E; [destruct (tts_connected t)|]; simpl; congruence. Qed.

Lemma resolve_openers_other sid sid' ws t :
  sid' <> sid -> owners_on sid ws ->
  let '(ws', t', k) := resolve_openers sid' ws t in
  k = None /\ owners_on sid ws' /\ tts_ws t' = tts_ws t.
Proof.
  intros Hne. revert t; induction ws as [|w rest IH]; intros t Ho; simpl; [auto|].
  inversion Ho as [|? ? Hw Hr]; subst.
  specialize (IH (if socket_eqb (w_socket w) sid' then tts_send (w_msg w) (w_tag w) t else t) Hr).
  destruct (resolve_openers sid' rest _) as [[ws' t'] k].
  destruct IH as [Hk [Ho' Hws]].
  destruct (socket_eqb (w_socket w) sid') eqn:E.
  - rewrite Hws, tts_send_ws. split; [|split; auto].
    destruct (w_owner w) eqn:Eo; [|exact Hk].
    rewrite (Hw eq_refl) in E. simpl in E. apply Nat.eqb_eq in E. congruence.
  - split; [exact Hk|split; [constructor; auto|exact Hws]].
Qed.

Lemma owners_on_filter sid f ws : owners_on sid ws -> owners_on sid (filter f ws).
Proof. intros H. unfold owners_on in *. apply Forall_forall. intros x Hx.
  apply filter_In in Hx. destruct Hx as [Hx _]. eapply Forall_forall in H; eauto. Qed.

Lemma owners_on_remove_nth sid i ws : owners_on sid ws -> owners_on sid (remove_nth i ws).
Proof.
  unfold owners_on. revert i; induction ws as [|w rest IH]; intros i H; destruct i; simpl; auto;
    inversion H; subst; auto.
Qed.

(** TTS listener events leave a stuck cycle parked. *)
Lemma stuck_tts_event sid s t k :
  stuck sid s -> tts_ws t = tts_ws (tts_st s) \/ tts_ws t = None ->
  owners_on sid (tts_waiters t) -> k = None ->
  forall cfg, resume_tts cfg k (set_tts t s) = set_tts t s /\ stuck sid (set_tts t s).
Proof.
  intros [Ha [Hp [Hpe [Hc [Hw Ho]]]]] Hws Ho' -> cfg. split; [reflexivity|].
  unfold stuck; simpl. repeat split; auto.
  destruct Hws as [-> | ->]; [exact Hw|discriminate].
Qed.

Lemma on_open_other sid sid' t :
  tts_ws t <> Some sid -> owners_on sid (tts_waiters t) ->
  snd (tts_on_open sid' t) = None /\ tts_ws (fst (tts_on_open sid' t)) = tts_ws t /\
  owners_on sid (tts_waiters (fst (tts_on_open sid' t))).
Proof.
  intros Hw Ho. unfold tts_on_open.
  destruct (socket_eqb (tts_ws t) sid') eqn:E; [|simpl; auto].
  assert (Hne : sid' <> sid).
  { intros ->. destruct (tts_ws t) as [x|]; simpl in E; [|discriminate].
    apply Nat.eqb_eq in E. congruence. }
  set (t1 := tts_send WInit 0 (tts_set_conn (tts_ws t) true false t)).
  assert (Ho1 : owners_on sid (tts_waiters t1)) by (unfold t1; rewrite tts_send_waiters; exact Ho).
  pose proof (resolve_openers_other sid sid' (tts_waiters t1) t1 Hne Ho1) as H.
  destruct (resolve_openers sid' (tts_waiters t1) t1) as [[ws' t'] k].
  destruct H as [-> [Ho' Hws]]. simpl. split; [reflexivity|split; [|exact Ho']].
  rewrite Hws. unfold t1. rewrite tts_send_ws. reflexivity.
Qed.

Lemma on_error_other sid sid' t :
  tts_ws t <> Some sid -> owners_on sid (tts_waiters t) ->
  snd (tts_on_error sid' t) = None /\ tts_ws (fst (tts_on_error sid' t)) = tts_ws t /\
  owners_on sid (tts_waiters (fst (tts_on_error sid' t))).
Proof.
  intros Hw Ho. unfold tts_on_error.
  destruct (socket_eqb (tts_ws t) sid') eqn:E; [|simpl; auto].
  assert (Hne : sid' <> sid).
  { intros ->. destruct (tts_ws t) as [x|]; simpl in E; [|discriminate].
    apply Nat.eqb_eq in E. congruence. }
  simpl. split; [|split; [reflexivity|apply owners_on_filter; exact Ho]].
  destruct (existsb w_owner _) eqn:Ex; [|reflexivity].
  apply existsb_exists in Ex. destruct Ex as [w [Hin Hown]].
  apply filter_In in Hin. destruct Hin as [Hin Hs].
  unfold owners_on in Ho. eapply Forall_forall in Ho; [|exact Hin].
  rewrite (Ho Hown) in Hs. simpl in Hs. apply Nat.eqb_eq in Hs. congruence.
Qed.

Lemma on_poll_other sid tmo i t :
  owners_on sid (tts_waiters t) ->
  snd (tts_on_poll tmo i t) = None /\ tts_ws (fst (tts_on_poll tmo i t)) = tts_ws t /\
  owners_on sid (tts_waiters (fst (tts_on_poll tmo i t))).
Proof.
  intros Ho. unfold tts_on_poll.
  destruct (nth_error (tts_waiters t) i) as [w|] eqn:E; [|simpl; auto].
  destruct (w_socket w) as [x|] eqn:Es; [simpl; auto|].
  destruct (tmo || tts_connected t); [|simpl; auto].
  simpl. rewrite tts_send_ws, tts_send_waiters. simpl.
  split; [|split; [reflexivity|apply owners_on_remove_nth; exact Ho]].
  destruct (w_owner w) eqn:Eo; [|reflexivity].
  apply nth_error_In in E. unfold owners_on in Ho. eapply Forall_forall in Ho; [|exact E].
  rewrite (Ho Eo) in Es. discriminate.
Qed.

Lemma stuck_step cfg sid s e :
  stuck sid s -> stuck sid (step cfg s e) /\ requests (step cfg s e) = requests s.
Proof.
  intros Hs. pose proof Hs as [[ic [full [resp [fs Ha]]]] [Hp [Hpe [Hc [Hw Ho]]]]].
  assert (Hint : forall s', active s' = active s -> is_processing s' = true ->
                 has_pending s' = true -> conv s' <> [] ->
                 tts_ws (tts_st s') <> Some sid -> owners_on sid (tts_waiters (tts_st s')) ->
                 stuck sid s').
  { intros s' Ha' Hp' Hpe' Hc' Hw' Ho'. repeat split; auto. rewrite Ha'. eauto. }
  assert (Hev : forall (tt : tts * option wake),
            snd tt = None -> tts_ws (fst tt) = tts_ws (tts_st s) ->
            owners_on sid (tts_waiters (fst tt)) ->
            stuck sid (let '(t, k) := tt in resume_tts cfg k (set_tts t s)) /\
            requests (let '(t, k) := tt in resume_tts cfg k (set_tts t s)) = requests s).
  { intros [t k] Hk Hws Ho'. simpl in Hk, Hws, Ho'. subst k. simpl.
    split; [|reflexivity]. apply Hint; simpl; auto. rewrite Hws; exact Hw. }
  assert (Hintr : forall s', stuck sid s' -> stuck sid (handle_interruption s') /\
                              requests (handle_interruption s') = requests s').
  { intros s' [[a [b [c [d Ha']]]] [Hp' [Hpe' [Hc' [Hw' Ho']]]]].
    unfold handle_interruption, tts_interrupt. simpl.
    split; [|reflexivity]. repeat split; simpl; auto.
    - rewrite Ha'. eauto.
    - destruct (tts_ws (tts_st s')) eqn:E; unfold tts_set_conn, tts_log; simpl;
        [discriminate|]. rewrite E. discriminate.
    - destruct (tts_ws (tts_st s')); unfold tts_set_conn, tts_log; simpl; exact Ho'. }
  destruct e; simpl.
  - unfold on_start_session. destruct (conv s) eqn:E; [contradiction|].
    split; [apply Hint; simpl; auto; rewrite E; discriminate|reflexivity].
  - unfold on_partial. destruct (negb (nonblank text)); [auto|].
    rewrite Hp, !orb_true_r. simpl. apply Hintr, Hs.
  - unfold on_committed. destruct (negb (nonblank text)); [auto|].
    set (s1 := (let s0 := set_last_input now s in
                let s0 := if last_is_user (conv s0)
                          then push (Msg Assistant (CStr interrupted_placeholder)) s0 else s0 in
                let s0 := push (Msg User (build_user_content (latest_frame s0) text)) s0 in
                add_emit "user_text" (JStr text) s0)).
    assert (H1 : stuck sid s1 /\ requests s1 = requests s).
    { unfold s1. destruct (last_is_user (conv (set_last_input now s))); simpl;
        (split; [apply Hint; simpl; auto|reflexivity]);
        intros Hn; apply app_eq_nil in Hn; destruct Hn as [_ Hn]; discriminate. }
    destruct H1 as [H1 Hr1]. destruct (Hintr s1 H1) as [H2 Hr2].
    pose proof H2 as [_ [Hp2 _]]. rewrite Hp2.
    split; [|transitivity (requests (handle_interruption s1)); [reflexivity|congruence]].
    clear -H2. revert H2. generalize (handle_interruption s1). intros s2 H2.
    destruct H2 as [[a [b [c [d Ha2]]]] [Hp2 [_ [Hc2 [Hw2 Ho2]]]]].
    repeat split; simpl; auto. rewrite Ha2. eauto.
  - split; [apply Hint; simpl; auto|reflexivity].
  - split; [apply Hint; simpl; auto|reflexivity].
  - unfold on_tick. destruct (negb (timer_on s)); [auto|].
    rewrite Hp, orb_true_r. simpl. auto.
  - rewrite Ha. auto.
  - rewrite Ha. auto.
  - rewrite Ha. auto.
  - rewrite Ha. auto.
  - destruct (on_open_other sid sid0 (tts_st s) Hw Ho) as [H1 [H2 H3]]. apply Hev; auto.
  - destruct (on_error_other sid sid0 (tts_st s) Hw Ho) as [H1 [H2 H3]]. apply Hev; auto.
  - split; [|reflexivity]. apply Hint; simpl; auto.
    + unfold tts_on_close. destruct (socket_eqb (tts_ws (tts_st s)) sid0); simpl; [discriminate|exact Hw].
    + unfold tts_on_close. destruct (socket_eqb (tts_ws (tts_st s)) sid0); exact Ho.
  - unfold on_tts_audio. destruct (socket_eqb _ _); [|auto].
    destruct (nth_error _ _) as [[m tag]|]; [|auto].
    destruct (interrupted s); [auto|]. split; [apply Hint; simpl; auto|reflexivity].
  - destruct (on_poll_other sid false i (tts_st s) Ho) as [H1 [H2 H3]]. apply Hev; auto.
  - destruct (on_poll_other sid true i (tts_st s) Ho) as [H1 [H2 H3]]. apply Hev; auto.
Qed.

Lemma stuck_run cfg sid s tr :
  stuck sid s -> stuck sid (run cfg s tr) /\ requests (run cfg s tr) = requests s.
Proof.
  revert s; induction tr as [|e tr IH]; intros s Hs; simpl; [auto|].
  destruct (stuck_step cfg sid s e Hs) as [H1 H2].
  destruct (IH _ H1) as [H3 H4]. split; [exact H3|congruence].
Qed.

Lemma flush_barge_in_stuck : stuck 0 (run blender_cfg init_state trace_flush_barge_in).
Proof.
  unfold stuck, owners_on. vm_compute.
  split; [do 4 eexists; reflexivity|].
  repeat split; try discriminate. repeat constructor. 
Qed.

(** ** Interrupted state without a main cycle *)

Section Pres.
Variable cfg : config.

#[local] Arguments count_main : simpl never.

Lemma count_main_app rs k h :
  count_main (rs ++ [(k, h)]) =
  count_main rs + match k with ReqMain => 1 | _ => 0 end.
Proof.
  unfold count_main. rewrite filter_app, length_app. simpl.
  destruct k; simpl; lia.
Qed.

Lemma pres_refl s : Pres s s.
Proof. split; [lia|auto]. Qed.

Lemma pres_trans s1 s2 s3 : Pres s1 s2 -> Pres s2 s3 -> Pres s1 s3.
Proof.
  intros [H1 H2] [H3 H4]. split; [lia|].
  intros Heq Hi.
  destruct (H2 ltac:(lia) Hi) as [Hi2 Ha2].
  destruct (H4 ltac:(lia) Hi2) as [Hi3 Ha3]. split; congruence.
Qed.

Lemma pres_quiet s s' :
  interrupted s' = interrupted s -> audio_out s' = audio_out s ->
  count_main (requests s') = count_main (requests s) -> Pres s s'.
Proof. intros Hi Ha Hc. split; [lia|]. intros _ H. split; congruence. Qed.

Lemma pres_other_request s s' k h :
  k <> ReqMain ->
  interrupted s' = interrupted s -> audio_out s' = audio_out s ->
  requests s' = requests s ++ [(k, h)] -> Pres s s'.
Proof.
  intros Hk Hi Ha Hr. apply pres_quiet; auto. rewrite Hr, count_main_app.
  destruct k; [congruence|lia|lia].
Qed.

Ltac quiet := apply pres_quiet; reflexivity.

Lemma pres_session_continue fs s : Pres s (session_continue cfg fs s).
Proof.
  unfold session_continue. destruct fs; [|apply pres_refl].
  destruct (cfg_rec_enabled cfg); quiet.
Qed.

Lemma pres_main_start ic fs s : Pres s (main_start cfg ic fs s).
Proof.
  unfold main_start. destruct (is_processing s); [apply pres_session_continue|].
  split.
  - simpl. rewrite count_main_app. lia.
  - simpl. rewrite count_main_app. lia.
Qed.

Lemma pres_main_finally fs s : Pres s (main_finally cfg fs s).
Proof.
  unfold main_finally. simpl. destruct (has_pending s).
  - eapply pres_trans; [|apply pres_main_start]. quiet.
  - eapply pres_trans; [|apply pres_session_continue]. quiet.
Qed.

Lemma pres_sentence_loop n s : Pres s (sentence_loop n s).
Proof.
  revert s; induction n as [|n IH]; intros s; simpl; [apply pres_refl|].
  destruct (sentence_end (sentence_buffer s)) as [i|]; [|apply pres_refl].
  destruct (interrupted s); [apply pres_refl|].
  destruct (tts_call_send _ _ _ _ _) as [t b].
  eapply pres_trans; [|apply IH]. quiet.
Qed.

Lemma pres_handle_text_chunk c s : Pres s (handle_text_chunk_for_tts c s).
Proof.
  unfold handle_text_chunk_for_tts. destruct (interrupted s); [apply pres_refl|].
  eapply pres_trans; [|apply pres_sentence_loop]. quiet.
Qed.

Lemma pres_main_after_tools fs rs s : Pres s (main_after_tools cfg fs rs s).
Proof.
  unfold main_after_tools. destruct (negb (interrupted s)).
  - eapply pres_trans; [|apply pres_main_start]. quiet.
  - apply pres_main_finally.
Qed.

Lemma pres_handle_tool_call name args s :
  match handle_tool_call name args s with
  | ToolNow s' _ => Pres s s'
  | ToolAwait s' => Pres s s'
  end.
Proof.
  unfold handle_tool_call.
  destruct (String.eqb name "Create_Tutorial"); [quiet|].
  destruct (String.eqb name "Progressed_Step"); [quiet|].
  destruct (String.eqb name "Suggested_HotKey"); [quiet|].
  apply pres_refl.
Qed.

Lemma pres_main_tools fs tools rs s : Pres s (main_tools cfg fs tools rs s).
Proof.
  revert rs s; induction tools as [|t rest IH]; intros rs s; simpl;
    [apply pres_main_after_tools|].
  destruct (interrupted s); [apply pres_main_after_tools|].
  destruct t as [| | id name input |]; try apply IH.
  pose proof (pres_handle_tool_call name input (add_tool_call name id s)) as H.
  assert (H0 : Pres s (add_tool_call name id s)) by quiet.
  destruct (handle_tool_call name input (add_tool_call name id s)) as [s' r|s'].
  - eapply pres_trans; [exact H0|]. eapply pres_trans; [exact H|apply IH].
  - eapply pres_trans; [exact H0|]. eapply pres_trans; [exact H|quiet].
Qed.

Lemma pres_main_after_flush ic full resp fs reset s :
  Pres s (main_after_flush cfg ic full resp fs reset s).
Proof.
  unfold main_after_flush.
  set (s1 := if reset then set_buffer "" s else s).
  assert (H1 : Pres s s1) by (unfold s1; destruct reset; [quiet|apply pres_refl]).
  set (s2 := set_tts (tts_close_stream (cur_tag s1) (tts_flush (cur_tag s1) (tts_st s1))) s1).
  assert (H2 : Pres s1 s2) by quiet.
  set (s3 := if String.eqb full "" then s2 else add_emit _ (JStr full) s2).
  assert (H3 : Pres s2 s3) by (unfold s3; destruct (String.eqb full ""); [apply pres_refl|quiet]).
  assert (H4 : Pres s3 (push (Msg Assistant (CBlocks resp)) s3)) by quiet.
  eapply pres_trans; [exact H1|]. eapply pres_trans; [exact H2|].
  eapply pres_trans; [exact H3|]. eapply pres_trans; [exact H4|].
  destruct (filter is_tool_use resp); [apply pres_main_finally|apply pres_main_tools].
Qed.

Lemma pres_main_after_stream ic full resp fs s :
  Pres s (main_after_stream cfg ic full resp fs s).
Proof.
  unfold main_after_stream. destruct (interrupted s); [apply pres_main_finally|].
  destruct (nonblank (sentence_buffer s)); [|apply pres_main_after_flush].
  destruct (tts_call_send _ _ _ _ _) as [t parked].
  destruct parked; [quiet|].
  eapply pres_trans; [|apply pres_main_after_flush]. quiet.
Qed.

Lemma pres_rec_finally s : Pres s (rec_finally cfg s).
Proof.
  unfold rec_finally. simpl. destruct (has_pending s).
  - eapply pres_trans; [|apply pres_main_start]. quiet.
  - quiet.
Qed.

Lemma pres_rec_final c s : Pres s (rec_final cfg c s).
Proof.
  unfold rec_final. destruct (rec_cancelled s); [apply pres_rec_finally|].
  eapply pres_trans; [|apply pres_rec_finally]. quiet.
Qed.

Lemma pres_rec_after_tools c first round rs s : Pres s (rec_after_tools cfg c first round rs s).
Proof.
  unfold rec_after_tools. destruct (Nat.eqb round MAX_TOOL_ROUNDS); [apply pres_rec_final|].
  destruct (rec_cancelled s); [apply pres_rec_finally|].
  eapply pres_other_request with (k := ReqFollowUp); [discriminate|reflexivity..].
Qed.

Lemma pres_rec_tools c first round tools rs s : Pres s (rec_tools cfg c first round tools rs s).
Proof.
  revert rs s; induction tools as [|t rest IH]; intros rs s; simpl;
    [apply pres_rec_after_tools|].
  destruct (rec_cancelled s); [apply pres_rec_finally|].
  destruct t as [| | id name input |]; try apply IH.
  pose proof (pres_handle_tool_call name input (add_tool_call name id s)) as H.
  assert (H0 : Pres s (add_tool_call name id s)) by quiet.
  destruct (handle_tool_call name input (add_tool_call name id s)) as [s' r|s'].
  - eapply pres_trans; [exact H0|]. eapply pres_trans; [exact H|apply IH].
  - eapply pres_trans; [exact H0|]. eapply pres_trans; [exact H|quiet].
Qed.

Lemma pres_rec_after_tts c tools round first s : Pres s (rec_after_tts cfg c tools round first s).
Proof.
  unfold rec_after_tts. destruct tools; [apply pres_rec_final|apply pres_rec_tools].
Qed.

Lemma pres_rec_after_text c tools round s : Pres s (rec_after_text cfg c tools round s).
Proof.
  unfold rec_after_text. destruct (rec_cancelled s); [apply pres_rec_finally|apply pres_rec_after_tts].
Qed.

Lemma pres_rec_round c resp first round s : Pres s (rec_round cfg c resp first round s).
Proof.
  unfold rec_round. destruct (rec_cancelled s); [apply pres_rec_finally|].
  destruct (includes _ _); [apply pres_rec_finally|].
  destruct (String.eqb (first_text resp) ""); [apply pres_rec_after_tts|].
  destruct (tts_call_send _ _ _ _ _) as [t parked].
  destruct parked; [quiet|].
  eapply pres_trans; [|apply pres_rec_after_text]. quiet.
Qed.

Lemma on_tick_interrupted now s : interrupted (on_tick cfg now s) = interrupted s.
Proof.
  unfold on_tick. destruct (negb (timer_on s)); [reflexivity|].
  destruct (_ || _); [reflexivity|].
  destruct (latest_frame s); reflexivity.
Qed.

Lemma pres_on_tick now s : Pres s (on_tick cfg now s).
Proof.
  unfold on_tick. destruct (negb (timer_on s)); [apply pres_refl|].
  destruct (_ || _); [apply pres_refl|].
  destruct (latest_frame s); [|apply pres_refl].
  eapply pres_other_request with (k := ReqCheck); [discriminate|reflexivity..].
Qed.

Lemma pres_handle_interruption s : Pres s (handle_interruption s).
Proof. split; [simpl; lia|]. intros _ _. split; reflexivity. Qed.

Lemma pres_resume_tts k s : Pres s (resume_tts cfg k s).
Proof.
  unfold resume_tts.
  destruct k as [[|]|]; [| |apply pres_refl];
    (destruct (active s) as [[[| |]|[| | |]]|]; try apply pres_refl);
    first [apply pres_main_after_flush | apply pres_main_finally
          | apply pres_rec_after_text | apply pres_rec_finally].
Qed.

Lemma pres_step s e : Pres s (step cfg s e).
Proof.
  destruct e; simpl.
  - unfold on_start_session. destruct (conv s); [|quiet].
    eapply pres_trans; [|apply pres_main_start]. quiet.
  - unfold on_partial. destruct (negb (nonblank text)); [apply pres_refl|].
    destruct (_ || _); [apply pres_handle_interruption|apply pres_refl].
  - unfold on_committed. destruct (negb (nonblank text)); [apply pres_refl|].
    set (s1 := set_last_input now s).
    set (s2 := if last_is_user (conv s1) then push (Msg Assistant (CStr interrupted_placeholder)) s1 else s1).
    assert (H2 : Pres s s2) by (unfold s2; destruct (last_is_user (conv s1)); quiet).
    assert (H3 : Pres s2 (add_emit "user_text" (JStr text)
                            (push (Msg User (build_user_content (latest_frame s2) text)) s2))) by quiet.
    eapply pres_trans; [exact H2|]. eapply pres_trans; [exact H3|].
    eapply pres_trans; [apply pres_handle_interruption|].
    destruct (is_processing _); [quiet|apply pres_main_start].
  - quiet.
  - quiet.
  - apply pres_on_tick.
  - destruct (active s) as [[[| |]|]|]; try apply pres_refl.
    unfold main_on_delta. destruct (interrupted s); [apply pres_refl|].
    eapply pres_trans; [apply pres_handle_text_chunk|quiet].
  - destruct (active s) as [[[| |]|[| | |]]|]; try apply pres_refl.
    + apply pres_main_after_stream.
    + destruct (rec_cancelled s); [apply pres_rec_finally|apply pres_rec_round].
    + apply pres_rec_round.
  - destruct (active s) as [[[| |]|[| | |]]|]; try apply pres_refl;
      first [apply pres_main_finally | apply pres_rec_finally].
  - destruct (active s) as [[[| |]|[| | |]]|]; try apply pres_refl.
    + destruct (create_tutorial_done r s) as [s' j] eqn:E.
      eapply pres_trans; [|apply pres_main_tools].
      unfold create_tutorial_done in E. destruct r; inversion E; quiet.
    + destruct (create_tutorial_done r s) as [s' j] eqn:E.
      eapply pres_trans; [|apply pres_rec_tools].
      unfold create_tutorial_done in E. destruct r; inversion E; quiet.
  - destruct (tts_on_open sid (tts_st s)) as [t k].
    eapply pres_trans; [|apply pres_resume_tts]. quiet.
  - destruct (tts_on_error sid (tts_st s)) as [t k].
    eapply pres_trans; [|apply pres_resume_tts]. quiet.
  - quiet.
  - unfold on_tts_audio. destruct (socket_eqb _ _); [|apply pres_refl].
    destruct (nth_error _ _) as [[m tag]|]; [|apply pres_refl].
    destruct (interrupted s) eqn:E; [apply pres_refl|].
    split; [simpl; lia|]. intros _ H. congruence.
  - destruct (tts_on_poll false i (tts_st s)) as [t k].
    eapply pres_trans; [|apply pres_resume_tts]. quiet.
  - destruct (tts_on_poll true i (tts_st s)) as [t k].
    eapply pres_trans; [|apply pres_resume_tts]. quiet.
Qed.

Lemma pres_run s tr : Pres s (run cfg s tr).
Proof.
  revert s; induction tr as [|e tr IH]; intros s; simpl; [apply pres_refl|].
  eapply pres_trans; [apply pres_step|apply IH].
Qed.

End Pres.

(** ** Id lists *)

Lemma use_ids_app l1 l2 : use_ids (l1 ++ l2) = use_ids l1 ++ use_ids l2.
Proof. unfold use_ids. apply flat_map_app. Qed.

Lemma result_ids_app l1 l2 : result_ids (l1 ++ l2) = result_ids l1 ++ result_ids l2.
Proof. unfold result_ids. apply flat_map_app. Qed.

Lemma use_ids_filter l : use_ids (filter is_tool_use l) = use_ids l.
Proof. induction l as [|[] r IH]; simpl; auto. unfold use_ids in *. simpl. f_equal. exact IH. Qed.

Lemma ids_eqb_refl l : ids_eqb l l = true.
Proof. unfold ids_eqb. destruct (list_eq_dec string_dec l l); congruence. Qed.

Lemma ids_eqb_true a b : ids_eqb a b = true -> a = b.
Proof. unfold ids_eqb. destruct (list_eq_dec string_dec a b); congruence. Qed.

Lemma result_ids_none bs : existsb is_tool_result bs = false -> result_ids bs = [].
Proof. induction bs as [|[] r IH]; simpl; auto; discriminate. Qed.

Lemma use_ids_some bs : existsb is_tool_use bs = true -> use_ids bs <> [].
Proof.
  induction bs as [|[] r IH]; simpl; try discriminate; auto.
Qed.

Lemma no_image_ids bs :
  result_ids (filter (fun b => negb (is_image b)) bs) = result_ids bs /\
  use_ids (filter (fun b => negb (is_image b)) bs) = use_ids bs /\
  existsb is_tool_result (filter (fun b => negb (is_image b)) bs) = existsb is_tool_result bs.
Proof.
  induction bs as [|b r [IH1 [IH2 IH3]]]; [repeat split|].
  destruct b; simpl; unfold result_ids, use_ids in *; simpl; rewrite ?IH1, ?IH2, ?IH3; repeat split.
Qed.

(** ** Matched histories *)

Lemma pair_ok_sim p p' m m' : opt_sim p p' -> msg_sim m m' -> pair_ok p' m' = pair_ok p m.
Proof.
  intros Hp [H1 [H2 [H3 H4]]]. unfold pair_ok, answers. rewrite H2, H3.
  destruct p as [a|], p' as [a'|]; simpl in Hp; try contradiction; auto.
  destruct Hp as [G1 [_ [_ G4]]]. rewrite G1, G4. reflexivity.
Qed.

Lemma strip_images_sim m : msg_sim m (strip_images m).
Proof.
  destruct m as [r c]. unfold strip_images, msg_sim, carries_results. simpl.
  destruct (no_image_ids (blocks_of c)) as [H1 [H2 H3]].
  destruct (filter (fun b => negb (is_image b)) (blocks_of c)) as [|[] [|]] eqn:E; simpl in *;
    rewrite <- ?H1, <- ?H2, <- ?H3; auto.
Qed.

Lemma msg_sim_refl m : msg_sim m m.
Proof. unfold msg_sim. auto. Qed.

Lemma strip_at_matched idx i h p p' :
  opt_sim p p' -> matched_from p' (strip_at idx i h) = matched_from p h.
Proof.
  revert i p p'; induction h as [|m t IH]; intros i p p' Hp; simpl; auto.
  assert (Hs : msg_sim m (if existsb (Nat.eqb i) idx then strip_images m else m))
    by (destruct (existsb _ _); [apply strip_images_sim|apply msg_sim_refl]).
  rewrite (pair_ok_sim p p' m _ Hp Hs). f_equal. apply IH. exact Hs.
Qed.

Lemma prune_matched h : results_matched (prune_old_images h) = results_matched h.
Proof.
  unfold prune_old_images. destruct (_ <=? _); [reflexivity|].
  unfold results_matched. apply strip_at_matched. exact I.
Qed.

Lemma matched_head_free p q l :
  (forall x, hd_error l = Some x -> carries_results x = false) ->
  matched_from p l = matched_from q l.
Proof.
  destruct l as [|m t]; simpl; auto. intros H. specialize (H m eq_refl).
  unfold pair_ok. rewrite H. reflexivity.
Qed.

Lemma matched_none_any q l : matched_from None l = true -> matched_from q l = true.
Proof.
  destruct l as [|m t]; simpl; auto. unfold pair_ok.
  destruct (carries_results m); simpl; [discriminate|auto].
Qed.

Lemma sanitize_msg_cases m n :
  sanitize_msg m n = m \/
  (role_of m = Assistant /\ match n with Some x => carries_results x = false | None => True end).
Proof.
  destruct m as [[|] c]; unfold sanitize_msg; simpl; [left; reflexivity|].
  destruct (negb _); [left; reflexivity|].
  destruct n as [x|]; [|right; auto].
  unfold carries_results. destruct (role_eqb _ _ && _); [left; reflexivity|right; auto].
Qed.

Lemma sanitize_msg_role m n : role_of (sanitize_msg m n) = role_of m.
Proof.
  destruct m as [[|] c]; unfold sanitize_msg; simpl; auto.
  destruct (negb _); auto. destruct (match n with Some _ => _ | None => false end); auto.
  destruct (_ && _); auto. destruct (filter is_text _) as [|[] [|]]; reflexivity.
Qed.

Lemma sanitize_matched h p : matched_from p h = true -> matched_from p (sanitize h) = true.
Proof.
  revert p; induction h as [|m t IH]; intros p H; simpl; auto.
  simpl in H. apply andb_true_iff in H as [H1 H2].
  apply andb_true_iff. split.
  - destruct (sanitize_msg_cases m (hd_error (sanitize t))) as [E|[Er _]].
    + rewrite E. exact H1.
    + unfold pair_ok, carries_results. rewrite sanitize_msg_role, Er. reflexivity.
  - destruct (sanitize_msg_cases m (hd_error (sanitize t))) as [E|[_ Hn]].
    + rewrite E. apply IH, H2.
    + rewrite (matched_head_free _ (Some m)); [apply IH, H2|].
      intros x Hx. rewrite Hx in Hn. exact Hn.
Qed.

Lemma matched_app p h l :
  matched_from p (h ++ l) = matched_from p h && matched_from (fold_left (fun _ x => Some x) h p) l.
Proof.
  revert p; induction h as [|m t IH]; intros p; simpl; auto.
  rewrite IH, andb_assoc. reflexivity.
Qed.

Lemma matched_snoc_free h m :
  carries_results m = false -> results_matched h = true -> results_matched (h ++ [m]) = true.
Proof.
  intros Hc H. unfold results_matched in *. rewrite matched_app, H. simpl.
  unfold pair_ok. rewrite Hc. reflexivity.
Qed.

Lemma matched_app_commit h c :
  results_matched h = true -> results_matched c = true -> results_matched (h ++ c) = true.
Proof.
  intros H1 H2. unfold results_matched in *. rewrite matched_app, H1. simpl.
  apply matched_none_any, H2.
Qed.

Lemma matched_answer pre resp rs :
  results_matched (pre ++ [Msg Assistant (CBlocks resp)]) = true ->
  result_ids rs = use_ids resp ->
  results_matched (pre ++ [Msg Assistant (CBlocks resp)] ++ [Msg User (CBlocks rs)]) = true.
Proof.
  intros H Hids. unfold results_matched in *. rewrite app_assoc, matched_app, H. simpl.
  rewrite fold_left_app. simpl. unfold pair_ok, answers. simpl. rewrite Hids, ids_eqb_refl.
  rewrite orb_true_r. reflexivity.
Qed.

Lemma build_user_content_free f t r :
  carries_results (Msg r (build_user_content f t)) = false.
Proof. unfold carries_results. destruct f; simpl; destruct r; reflexivity. Qed.

Lemma prune_sanitize_matched h :
  results_matched h = true -> results_matched (prune_old_images (sanitize h)) = true.
Proof. intros H. rewrite prune_matched. apply sanitize_matched, H. Qed.

(** ** The spec's sanitizer *)

Lemma sanitize_agrees h p : matched_from p h = true -> sanitize h = sanitize_spec h.
Proof.
  revert p; induction h as [|m t IH]; intros p H; simpl; auto.
  simpl in H. apply andb_true_iff in H as [_ H2].
  rewrite <- (IH _ H2). f_equal.
  destruct m as [[|] c]; unfold sanitize_msg; simpl; [reflexivity|].
  destruct (existsb is_tool_use (blocks_of c)) eqn:Eu; simpl; [|reflexivity].
  assert (Hv : match hd_error (sanitize t) with
               | Some n => role_eqb (role_of n) User && existsb is_tool_result (blocks_of (content_of n))
               | None => false end
               = followed_by_matching (Msg Assistant c) (hd_error t)).
  { destruct t as [|u t']; simpl; [reflexivity|].
    simpl in H2. apply andb_true_iff in H2 as [Hu _].
    destruct (sanitize_msg_cases u (hd_error (sanitize t'))) as [E|[Er _]].
    - rewrite E. destruct u as [[|] cu]; simpl; [|reflexivity].
      unfold pair_ok, carries_results, answers in Hu. simpl in Hu.
      destruct (existsb is_tool_result (blocks_of cu)) eqn:Er; simpl in Hu |- *.
      + symmetry. exact Hu.
      + rewrite (result_ids_none _ Er). unfold ids_eqb.
        destruct (list_eq_dec string_dec [] (use_ids (blocks_of c))) as [E0|]; [|reflexivity].
        exfalso. apply (use_ids_some _ Eu). symmetry. exact E0.
    - rewrite sanitize_msg_role, Er. reflexivity. }
  rewrite Hv. destruct (followed_by_matching _ _); reflexivity.
Qed.

(** ** Invariant of the main cycle *)

Lemma hist_ok_intro s :
  results_matched (conv s) = true ->
  match active s with
  | None => True
  | Some (TMain (MToolWait _ _ _) _) => False
  | Some (TMain _ _) => True
  | Some (TRec _) => False
  end -> hist_ok s.
Proof.
  intros Hm Ha. split; [exact Hm|split].
  - intros id rest results fs E. rewrite E in Ha. contradiction.
  - intros pc E. rewrite E in Ha. contradiction.
Qed.

Lemma hist_ok_keep s s' :
  conv s' = conv s -> active s' = active s ->
  (interrupted s' = interrupted s \/ interrupted s' = true) -> hist_ok s -> hist_ok s'.
Proof.
  intros Hc Ha Hi [H1 [H2 H3]]. split; [rewrite Hc; exact H1|split].
  - intros id rest results fs E Ei. rewrite Ha in E.
    destruct Hi as [Hi|Hi]; [|congruence].
    rewrite Hi in Ei. rewrite Hc. exact (H2 _ _ _ _ E Ei).
  - intros pc E. rewrite Ha in E. exact (H3 _ E).
Qed.

Lemma sentence_loop_conv n s : conv (sentence_loop n s) = conv s.
Proof.
  revert s; induction n as [|n IH]; intros s; simpl; [reflexivity|].
  destruct (sentence_end (sentence_buffer s)) as [i|]; [|reflexivity].
  destruct (interrupted s); [reflexivity|].
  destruct (tts_call_send _ _ _ _ _) as [t b]. rewrite IH. reflexivity.
Qed.

Lemma handle_text_chunk_conv c s : conv (handle_text_chunk_for_tts c s) = conv s.
Proof.
  unfold handle_text_chunk_for_tts. destruct (interrupted s); [reflexivity|].
  rewrite sentence_loop_conv. reflexivity.
Qed.

Section HistMain.
Variable cfg : config.

Lemma main_start_hist ic fs s : hist_ok s -> hist_ok (main_start cfg ic fs s).
Proof.
  intros H. unfold main_start. destruct (is_processing s).
  - unfold session_continue. destruct fs; [destruct (cfg_rec_enabled cfg)|];
      apply (hist_ok_keep s); auto.
  - apply hist_ok_intro; simpl; [|exact I]. apply prune_sanitize_matched, (proj1 H).
Qed.

Lemma main_finally_hist fs s : results_matched (conv s) = true -> hist_ok (main_finally cfg fs s).
Proof.
  intros H. unfold main_finally. simpl. destruct (has_pending s).
  - apply main_start_hist, hist_ok_intro; simpl; auto.
  - unfold session_continue. destruct fs; [destruct (cfg_rec_enabled cfg)|];
      apply hist_ok_intro; simpl; auto.
Qed.

Lemma main_after_tools_hist fs rs s :
  results_matched (conv s) = true ->
  (interrupted s = false -> exists pre resp, conv s = pre ++ [Msg Assistant (CBlocks resp)] /\
                                             result_ids rs = use_ids resp) ->
  hist_ok (main_after_tools cfg fs rs s).
Proof.
  intros H Hsh. unfold main_after_tools. destruct (interrupted s) eqn:Ei; simpl.
  - apply main_finally_hist, H.
  - apply main_start_hist, hist_ok_intro; simpl; [|exact I].
    destruct (Hsh eq_refl) as [pre [resp [Hc Hids]]]. rewrite Hc, <- app_assoc.
    apply matched_answer; [rewrite <- Hc; exact H|exact Hids].
Qed.

Lemma main_tools_hist fs tools rs s :
  results_matched (conv s) = true ->
  (interrupted s = false -> exists pre resp, conv s = pre ++ [Msg Assistant (CBlocks resp)] /\
      forallb is_tool_result rs = true /\ use_ids resp = result_ids rs ++ use_ids tools) ->
  hist_ok (main_tools cfg fs tools rs s).
Proof.
  revert rs s; induction tools as [|t rest IH]; intros rs s H Hsh; simpl.
  - apply main_after_tools_hist; [exact H|].
    intros Hi. destruct (Hsh Hi) as [pre [resp [H1 [_ H3]]]]. exists pre, resp.
    split; [exact H1|]. rewrite H3. symmetry. apply app_nil_r.
  - destruct (interrupted s) eqn:Ei.
    + apply main_after_tools_hist; [exact H|intros E; congruence].
    + destruct (Hsh eq_refl) as [pre [resp [H1 [H2 H3]]]].
      destruct t as [| | id name input |]; try (apply IH; [exact H|]; intros _; exists pre, resp; auto).
      pose proof (handle_tool_call_calm name input (add_tool_call name id s)) as Hh.
      assert (H0 : calm s (add_tool_call name id s)) by calm_tac.
      destruct (handle_tool_call name input (add_tool_call name id s)) as [s1 r|s1];
        destruct Hh as [_ [Hc1 _]]; pose proof (calm_trans _ _ _ H0 Hc1) as [Ec [_ [Ei1 _]]].
      * apply IH; [rewrite Ec; exact H|]. intros _. exists pre, resp. rewrite Ec.
        split; [exact H1|split].
        -- rewrite forallb_app, H2. reflexivity.
        -- rewrite H3, result_ids_app, <- app_assoc. reflexivity.
      * split; [simpl; rewrite Ec; exact H|split].
        -- intros id' rest' results' fs' E _. simpl in E. injection E as <- <- <- <-.
           exists pre, resp. simpl. rewrite Ec. auto.
        -- intros pc E. discriminate.
Qed.

Lemma main_after_flush_hist ic full resp fs reset s :
  results_matched (conv s) = true -> hist_ok (main_after_flush cfg ic full resp fs reset s).
Proof.
  intros H. unfold main_after_flush.
  assert (Hm : forall x : state, conv x = conv s ->
            results_matched (conv (push (Msg Assistant (CBlocks resp)) x)) = true)
    by (intros x Ex; simpl; rewrite Ex; apply matched_snoc_free; [reflexivity|exact H]).
  set (x := (let s := if reset then set_buffer "" s else s in
             let tag := cur_tag s in
             let s := set_tts (tts_close_stream tag (tts_flush tag (tts_st s))) s in
             if String.eqb full "" then s
             else add_emit (if ic then "agent_text_continue" else "agent_text") (JStr full) s)).
  assert (Ex : conv x = conv s)
    by (unfold x; destruct reset, (String.eqb full ""); reflexivity).
  change (hist_ok (match filter is_tool_use resp with
                   | [] => main_finally cfg fs (push (Msg Assistant (CBlocks resp)) x)
                   | tools => main_tools cfg fs tools [] (push (Msg Assistant (CBlocks resp)) x)
                   end)).
  destruct (filter is_tool_use resp) as [|t ts] eqn:Et.
  - apply main_finally_hist, Hm, Ex.
  - apply main_tools_hist; [apply Hm, Ex|]. intros _. exists (conv x), resp.
    split; [reflexivity|split; [reflexivity|]]. rewrite <- Et, use_ids_filter. reflexivity.
Qed.

Lemma main_after_stream_hist ic full resp fs s :
  results_matched (conv s) = true -> hist_ok (main_after_stream cfg ic full resp fs s).
Proof.
  intros H. unfold main_after_stream. destruct (interrupted s).
  - apply main_finally_hist, H.
  - destruct (nonblank (sentence_buffer s)).
    + destruct (tts_call_send _ _ _ _ _) as [t parked]. destruct parked.
      * apply hist_ok_intro; simpl; auto.
      * apply main_after_flush_hist. exact H.
    + apply main_after_flush_hist, H.
Qed.

Lemma rec_finally_hist s : results_matched (conv s) = true -> hist_ok (rec_finally cfg s).
Proof.
  intros H. unfold rec_finally. simpl. destruct (has_pending s).
  - apply main_start_hist, hist_ok_intro; simpl; auto.
  - apply hist_ok_intro; simpl; auto.
Qed.

End HistMain.

(** ** Recurring check *)

Lemma matched_assistant c resp :
  results_matched c = true -> results_matched (c ++ [Msg Assistant (CBlocks resp)]) = true.
Proof. intros H. apply matched_snoc_free; [reflexivity|exact H]. Qed.

Section RecEnd.
Variable cfg : config.

Lemma rec_end_calm why c p s s1 s' : calm s s1 -> rec_end why c p s1 s' -> rec_end why c p s s'.
Proof.
  intros [Hc [_ [_ [Hr [Hp _]]]]] [HA [HB HC]]. split; [|split].
  - intros pc' Ha. destruct (HA pc' Ha) as [H1 [H2 H3]]. split; [congruence|split; [congruence|exact H3]].
  - intros Hn. destruct (HB Hn) as [[H1 H2]|[H1 [R [HR [H3 H4]]]]].
    + left. rewrite <- Hc, <- Hr. auto.
    + right. split; [congruence|]. exists R. split; [exact HR|split; [exact H3|]].
      rewrite <- Hc, <- Hp. exact H4.
  - intros Hm. apply HC. rewrite Hc. exact Hm.
Qed.

Lemma rec_end_shift (w1 w2 : Prop) c p s s' :
  (w1 -> w2) -> rec_end w1 (c ++ p) [] s s' -> rec_end w2 c p s s'.
Proof.
  intros Hw [HA [HB HC]]. split; [|split; [|exact HC]].
  - intros pc' Ha. destruct (HA pc' Ha) as [H1 [H2 [H3 [d Hd]]]].
    split; [exact H1|split; [exact H2|split; [exact H3|]]]. exists (p ++ d). rewrite Hd, app_assoc. reflexivity.
  - intros Hn. destruct (HB Hn) as [[H1 H2]|[H1 [R [HR [H3 H4]]]]].
    + left. split; [auto|]. tauto.
    + right. split; [auto|]. exists R. rewrite <- !app_assoc in *. simpl in *. auto.
Qed.

Lemma rec_finally_not_rec s pc : active (rec_finally cfg s) <> Some (TRec pc).
Proof.
  unfold rec_finally. simpl. destruct (has_pending s); [unfold main_start; simpl|]; discriminate.
Qed.

Lemma rec_finally_end (why : Prop) c p s :
  (rec_cancelled s = true \/ why) -> rec_end why c p s (rec_finally cfg s).
Proof.
  intros Hw. split; [|split].
  - intros pc' E. exfalso. exact (rec_finally_not_rec s pc' E).
  - intros _. left. split; [|exact Hw]. unfold rec_finally. simpl.
    destruct (has_pending s); [rewrite main_start_length|]; reflexivity.
  - apply rec_finally_hist.
Qed.

Lemma rec_final_end why c p R s :
  complete_commit (c ++ p ++ R) -> results_matched (c ++ p ++ R) = true ->
  (R = [] \/ exists rs, R = [Msg User (CBlocks rs)]) ->
  rec_end why c p s (rec_final cfg (c ++ p ++ R) s).
Proof.
  intros Hcc Hm HR. unfold rec_final. destruct (rec_cancelled s) eqn:Ec.
  - apply rec_finally_end. left; exact Ec.
  - split; [|split].
    + intros pc' E. exfalso. exact (rec_finally_not_rec _ pc' E).
    + intros _. right. split; [exact Ec|]. exists R.
      split; [exact HR|split; [exact Hcc|]].
      intros Hn. unfold rec_finally. simpl. rewrite Hn. auto.
    + intros Hm0. apply rec_finally_hist. simpl. apply matched_app_commit; assumption.
Qed.

Lemma rec_after_tools_end c pre resp first round rs s :
  results_matched c = true -> c = pre ++ [Msg Assistant (CBlocks resp)] ->
  forallb is_tool_result rs = true -> result_ids rs = use_ids resp ->
  rec_end False c [] s (rec_after_tools cfg c first round rs s).
Proof.
  intros Hm Hc Hr Hids.
  assert (Hm' : results_matched (c ++ [Msg User (CBlocks rs)]) = true)
    by (rewrite Hc, <- app_assoc; apply matched_answer; [rewrite <- Hc; exact Hm|exact Hids]).
  unfold rec_after_tools.
  destruct (Nat.eqb round MAX_TOOL_ROUNDS).
  - change (c ++ [Msg User (CBlocks rs)]) with (c ++ [] ++ [Msg User (CBlocks rs)]).
    apply rec_final_end; [|exact Hm'|right; eexists; reflexivity].
    exists pre, resp, [Msg User (CBlocks rs)]. rewrite Hc, <- app_assoc. split; [reflexivity|].
    right. eexists; split; [reflexivity|auto].
  - destruct (rec_cancelled s) eqn:Ec; [apply rec_finally_end; left; exact Ec|].
    split; [|split].
    + intros pc' Ha. simpl in Ha. injection Ha as <-. simpl.
      split; [reflexivity|split; [reflexivity|split]].
      * split; [exact Hm'|exact I].
      * eexists; reflexivity.
    + intros Hn. exfalso. eapply Hn. reflexivity.
    + intros H0. split; [exact H0|split].
      * intros id rest results fs E. discriminate.
      * intros pc E. simpl in E. injection E as <-. split; [exact Hm'|exact I].
Qed.

Lemma rec_tools_end c pre resp first round tools rs s :
  results_matched c = true -> c = pre ++ [Msg Assistant (CBlocks resp)] ->
  forallb is_tool_result rs = true -> use_ids resp = result_ids rs ++ use_ids tools ->
  rec_end False c [] s (rec_tools cfg c first round tools rs s).
Proof.
  intros Hm. revert rs s; induction tools as [|t rest IH]; intros rs s Hc Hr Hids; simpl.
  - eapply rec_after_tools_end; eauto. rewrite Hids. symmetry. apply app_nil_r.
  - destruct (rec_cancelled s) eqn:Ec; [apply rec_finally_end; left; exact Ec|].
    destruct t as [| | id name input |]; try (apply IH; auto).
    pose proof (handle_tool_call_calm name input (add_tool_call name id s)) as Hh.
    assert (H0 : calm s (add_tool_call name id s)) by calm_tac.
    destruct (handle_tool_call name input (add_tool_call name id s)) as [s1 r|s1];
      destruct Hh as [_ [H1 _]].
    + assert (Hs1 : calm s s1) by (eapply calm_trans; eauto).
      eapply rec_end_calm; [exact Hs1|]. apply IH.
      * exact Hc.
      * rewrite forallb_app, Hr. reflexivity.
      * rewrite Hids, result_ids_app, <- app_assoc. reflexivity.
    + assert (Hs1 : calm s s1) by (eapply calm_trans; eauto).
      assert (Hok : pc_ok (RToolWait c first round id rest rs))
        by (split; [exact Hm|exists pre, resp; auto]).
      destruct Hs1 as [Hc1 [_ [_ [Hr1 _]]]]. split; [|split].
      * intros pc' Ha. simpl in Ha. injection Ha as <-. simpl.
        split; [exact Hc1|split; [rewrite Hr1; reflexivity|split; [exact Hok|]]].
        exists []. rewrite app_nil_r. reflexivity.
      * intros Hn. exfalso. eapply Hn. reflexivity.
      * intros H2. split; [simpl; rewrite Hc1; exact H2|split].
        -- intros id' rest' results' fs E. discriminate.
        -- intros pc E. simpl in E. injection E as <-. exact Hok.
Qed.

Lemma rec_after_tts_end c pre resp tools round first s :
  results_matched c = true -> c = pre ++ [Msg Assistant (CBlocks resp)] ->
  tools = filter is_tool_use resp ->
  rec_end False c [] s (rec_after_tts cfg c tools round first s).
Proof.
  intros Hm Hc Ht. unfold rec_after_tts. destruct tools as [|t ts] eqn:Et.
  - replace (rec_final cfg c s) with (rec_final cfg (c ++ [] ++ []) s)
      by (simpl; rewrite app_nil_r; reflexivity).
    apply rec_final_end; [| |left; reflexivity].
    + exists pre, resp, []. rewrite Hc. simpl. rewrite app_nil_r. split; [reflexivity|].
      left. auto.
    + simpl. rewrite app_nil_r. exact Hm.
  - eapply rec_tools_end; eauto. rewrite Ht, use_ids_filter. reflexivity.
Qed.

Lemma rec_after_text_end c pre resp tools round s :
  results_matched c = true -> c = pre ++ [Msg Assistant (CBlocks resp)] ->
  tools = filter is_tool_use resp ->
  rec_end False c [] s (rec_after_text cfg c tools round s).
Proof.
  intros Hm Hc Ht. unfold rec_after_text.
  destruct (rec_cancelled s) eqn:Ec; [apply rec_finally_end; left; exact Ec|].
  eapply rec_after_tts_end; eauto.
Qed.

Lemma rec_round_end c resp first round s :
  results_matched c = true ->
  rec_end (includes "[NO_GUIDANCE_NEEDED]" (first_text resp) = true)
          c [Msg Assistant (CBlocks resp)] s (rec_round cfg c resp first round s).
Proof.
  intros Hm. unfold rec_round.
  destruct (rec_cancelled s) eqn:Ec; [apply rec_finally_end; left; exact Ec|].
  destruct (includes _ _) eqn:Einc; [apply rec_finally_end; right; reflexivity|].
  apply (rec_end_shift False); [tauto|].
  pose proof (matched_assistant c resp Hm) as Hm'.
  destruct (String.eqb (first_text resp) "").
  - eapply rec_after_tts_end; eauto.
  - set (s1 := add_emit _ (JStr (first_text resp)) s).
    destruct (tts_call_send _ _ _ _ _) as [t parked].
    assert (Hcl : calm s (set_tts t s1)) by (unfold s1, calm; simpl; repeat split).
    assert (Hok : pc_ok (RTTSWait (c ++ [Msg Assistant (CBlocks resp)]) (filter is_tool_use resp) round))
      by (split; [exact Hm'|exists c, resp; auto]).
    destruct parked.
    + split; [|split].
      * intros pc' Ha. simpl in Ha. injection Ha as <-. simpl.
        split; [reflexivity|split; [reflexivity|split; [exact Hok|]]].
        exists []. rewrite app_nil_r. reflexivity.
      * intros Hn. exfalso. eapply Hn. reflexivity.
      * intros H2. split; [exact H2|split].
        -- intros id rest results fs E. discriminate.
        -- intros pc E. simpl in E. injection E as <-. exact Hok.
    + eapply rec_end_calm; [exact Hcl|]. eapply rec_after_text_end; eauto.
Qed.

End RecEnd.

Lemma goal2_of_end cfg s e pc (why : Prop) :
  pending_ok s -> handler_pushes s e = 0 ->
  (why -> rec_cancelled s = true \/ e = EvResponseError \/
       (exists resp, e = EvResponse resp /\ includes "[NO_GUIDANCE_NEEDED]" (first_text resp) = true) \/
       (exists sid, e = EvTTSError sid)) ->
  rec_end why (pc_commit pc) (step_turns e) s (step cfg s e) -> rec_goal cfg s e pc.
Proof.
  intros Hp H0 Hw [HA [HB _]]. unfold rec_goal. rewrite H0, Nat.add_0_r. split.
  - intros pc' Ha. destruct (HA pc' Ha) as [H1 [H2 H3]]. rewrite H1, H2. auto.
  - intros Hn. destruct (HB Hn) as [[H1 [H2|H2]]|[H1 [R [HR [H3 H4]]]]].
    + left. auto.
    + left. split; [auto|]. apply Hw, H2.
    + right. assert (Hn0 : has_pending s = false)
        by (destruct (has_pending s) eqn:E; [rewrite (Hp E) in H1; discriminate|reflexivity]).
      destruct (H4 Hn0) as [H5 H6].
      split; [exact H1|split; [reflexivity|split; [exact H5|]]]. exists R. auto.
Qed.

Lemma goal2_same cfg s e pc :
  active (step cfg s e) = active s -> active s = Some (TRec pc) -> pc_ok pc ->
  length (conv (step cfg s e)) = length (conv s) + handler_pushes s e ->
  (rec_cancelled s = true -> rec_cancelled (step cfg s e) = true) ->
  rec_goal cfg s e pc.
Proof.
  intros Hs Ha Hok Hl Hc. unfold rec_goal. split.
  - intros pc' Ha'. rewrite Hs, Ha in Ha'. injection Ha' as <-.
    split; [exact Hl|split; [exact Hc|split; [exact Hok|]]]. exists []. rewrite app_nil_r. reflexivity.
  - intros Hn. exfalso. apply (Hn pc). rewrite Hs. exact Ha.
Qed.

Lemma resolve_openers_no_err sid ws t :
  let '(_, _, k) := resolve_openers sid ws t in k <> Some WakeErr.
Proof.
  revert t; induction ws as [|w r IH]; intros t; simpl; [discriminate|].
  specialize (IH (if socket_eqb (w_socket w) sid then tts_send (w_msg w) (w_tag w) t else t)).
  destruct (resolve_openers _ _ _) as [[ws' t'] k].
  destruct (socket_eqb (w_socket w) sid); [destruct (w_owner w); [discriminate|]|]; exact IH.
Qed.

Lemma tts_on_open_no_err sid t : snd (tts_on_open sid t) <> Some WakeErr.
Proof.
  unfold tts_on_open. destruct (socket_eqb (tts_ws t) sid); [|discriminate].
  match goal with |- context [resolve_openers sid ?ws ?t0] =>
    pose proof (resolve_openers_no_err sid ws t0) as H; destruct (resolve_openers sid ws t0) as [[a b] k] end.
  exact H.
Qed.

Lemma tts_on_poll_no_err tmo i t : snd (tts_on_poll tmo i t) <> Some WakeErr.
Proof.
  unfold tts_on_poll. destruct (nth_error _ _) as [w|]; [|discriminate].
  destruct (w_socket w); [discriminate|].
  destruct (tmo || tts_connected t); [|discriminate]. simpl. destruct (w_owner w); discriminate.
Qed.

Lemma goal2_resume cfg s pc e (tw : tts * option wake) :
  active s = Some (TRec pc) -> pending_ok s -> pc_ok pc -> handler_pushes s e = 0 ->
  step_turns e = [] ->
  (snd tw = Some WakeErr -> exists sid, e = EvTTSError sid) ->
  step cfg s e = (let '(t, k) := tw in resume_tts cfg k (set_tts t s)) ->
  rec_goal cfg s e pc.
Proof.
  intros Ha Hp Hok H0 Htn Herr Hst. destruct tw as [t k]. simpl in Herr.
  assert (Hc : calm s (set_tts t s)) by apply calm_set_tts.
  assert (Hsame : step cfg s e = set_tts t s -> rec_goal cfg s e pc).
  { intros E. apply goal2_same; try rewrite E; auto. rewrite H0. simpl. lia. }
  destruct k as [[|]|]; simpl in Hst; try rewrite Ha in Hst; try (apply Hsame; exact Hst).
  - destruct pc as [uc|c tools round|c first round id rest results|c first round];
      try (apply Hsame; exact Hst).
    destruct Hok as [Hm [pre [resp [Hc0 Ht0]]]].
    apply (goal2_of_end cfg s e _ False); [exact Hp|exact H0|tauto|]. rewrite Hst, Htn.
    eapply rec_end_calm; [exact Hc|]. eapply rec_after_text_end; eauto.
  - destruct pc as [uc|c tools round|c first round id rest results|c first round];
      try (apply Hsame; exact Hst).
    apply (goal2_of_end cfg s e _ (exists sid, e = EvTTSError sid)); [exact Hp|exact H0|tauto|].
    rewrite Hst. eapply rec_end_calm; [exact Hc|]. apply rec_finally_end. right. apply Herr. reflexivity.
Qed.

(** One event received by a suspended recurring check whose flags and
    provisional turns are in order. *)
Lemma rec_step_goal (cfg : config) (s : state) (e : event) (pc : rec_pc) :
  active s = Some (TRec pc) -> rec_running s = true -> is_processing s = true ->
  (has_pending s = true -> rec_cancelled s = true) -> pc_ok pc ->
  rec_goal cfg s e pc.
Proof.
  intros Ha Hrr Hpr Hp Hok.
  assert (Hp' : pending_ok s) by exact Hp.
  destruct e as [|t|t now|d| |now|c|resp| |r|sid|sid|sid|sid k|i|i].
  - (* startSession *)
    apply goal2_same; auto; simpl; unfold on_start_session; destruct (conv s) eqn:Ec; simpl;
      try (unfold main_start, session_continue; simpl; rewrite Hpr;
           destruct (cfg_rec_enabled cfg); simpl); rewrite ?Ec; simpl; auto.
  - (* partial *)
    apply goal2_same; auto; simpl; unfold on_partial;
      destruct (negb (nonblank t)); simpl; auto; destruct (_ || _); simpl; auto.
  - (* committed *)
    apply goal2_same; auto; simpl; unfold on_committed; destruct (nonblank t); simpl; auto;
      destruct (last_is_user (conv s)); simpl; rewrite Hpr; simpl; auto;
      rewrite ?length_app; simpl; lia.
  - apply goal2_same; simpl; auto.
  - apply goal2_same; simpl; auto.
  - (* tick *)
    apply goal2_same; auto; simpl; unfold on_tick; rewrite Hrr; destruct (timer_on s); simpl; auto.
  - apply goal2_same; simpl; rewrite ?Ha; auto.
  - (* response *)
    destruct pc as [uc|c0 tools round|c0 first round id rest results|c0 first round].
    + apply (goal2_of_end cfg s _ _ (includes "[NO_GUIDANCE_NEEDED]" (first_text resp) = true));
        [exact Hp'|reflexivity|intros H; right; right; left; eauto|].
      simpl. rewrite Ha. destruct (rec_cancelled s) eqn:Ec.
      * apply rec_finally_end. left; exact Ec.
      * apply rec_round_end, (proj1 Hok).
    + apply goal2_same; simpl; rewrite ?Ha; auto.
    + apply goal2_same; simpl; rewrite ?Ha; auto.
    + apply (goal2_of_end cfg s _ _ (includes "[NO_GUIDANCE_NEEDED]" (first_text resp) = true));
        [exact Hp'|reflexivity|intros H; right; right; left; eauto|].
      simpl. rewrite Ha. apply rec_round_end, (proj1 Hok).
  - (* response error *)
    destruct pc as [uc|c0 tools round|c0 first round id rest results|c0 first round];
      try (apply goal2_same; simpl; rewrite ?Ha; auto; fail);
      (apply (goal2_of_end cfg s _ _ True); [exact Hp'|reflexivity|intros _; right; left; reflexivity|];
       simpl; rewrite Ha; apply rec_finally_end; right; exact I).
  - (* tutorial *)
    destruct pc as [uc|c0 tools round|c0 first round id rest results|c0 first round];
      try (apply goal2_same; simpl; rewrite ?Ha; auto; fail).
    destruct Hok as [Hm [pre [resp [Hc0 [Hr0 Hids]]]]].
    apply (goal2_of_end cfg s _ _ False); [exact Hp'|reflexivity|tauto|].
    simpl. rewrite Ha.
    pose proof (create_tutorial_done_calm r s) as [Hc _].
    destruct (create_tutorial_done r s) as [s1 j]. simpl in Hc.
    eapply rec_end_calm; [exact Hc|]. eapply rec_tools_end; eauto.
    + rewrite forallb_app, Hr0. reflexivity.
    + rewrite Hids, result_ids_app, <- app_assoc. reflexivity.
  - apply (goal2_resume cfg s pc _ (tts_on_open sid (tts_st s))); [exact Ha|exact Hp'|exact Hok|reflexivity|reflexivity| |].
    + intros H. exfalso. exact (tts_on_open_no_err _ _ H).
    + simpl. destruct (tts_on_open sid (tts_st s)). reflexivity.
  - apply (goal2_resume cfg s pc _ (tts_on_error sid (tts_st s))); [exact Ha|exact Hp'|exact Hok|reflexivity|reflexivity| |].
    + intros _. exists sid. reflexivity.
    + simpl. destruct (tts_on_error sid (tts_st s)). reflexivity.
  - apply goal2_same; simpl; auto.
  - (* audio *)
    apply goal2_same; auto; simpl; unfold on_tts_audio; destruct (socket_eqb _ _); simpl; auto;
      destruct (nth_error _ _) as [[m tag]|]; simpl; auto; destruct (interrupted s); simpl; auto.
  - apply (goal2_resume cfg s pc _ (tts_on_poll false i (tts_st s))); [exact Ha|exact Hp'|exact Hok|reflexivity|reflexivity| |].
    + intros H. exfalso. exact (tts_on_poll_no_err _ _ _ H).
    + simpl. destruct (tts_on_poll false i (tts_st s)). reflexivity.
  - apply (goal2_resume cfg s pc _ (tts_on_poll true i (tts_st s))); [exact Ha|exact Hp'|exact Hok|reflexivity|reflexivity| |].
    + intros H. exfalso. exact (tts_on_poll_no_err _ _ _ H).
    + simpl. destruct (tts_on_poll true i (tts_st s)). reflexivity.
Qed.

(** ** The invariant over every event *)

Lemma resume_hist cfg k s : hist_ok s -> hist_ok (resume_tts cfg k s).
Proof.
  intros H. pose proof H as [Hm [Htw Hrc]]. unfold resume_tts.
  destruct k as [[|]|]; destruct (active s) as [[[ic full|ic full resp|id rest results] fs|pc]|] eqn:Ea;
    try exact H.
  - apply main_after_flush_hist, Hm.
  - destruct pc as [uc|c tools round|c first round id rest results|c first round]; try exact H.
    destruct (Hrc _ eq_refl) as [Hm0 [pre [resp [Hc0 Ht0]]]].
    exact (proj2 (proj2 (rec_after_text_end cfg c pre resp tools round s Hm0 Hc0 Ht0)) Hm).
  - apply main_finally_hist, Hm.
  - destruct pc as [uc|c tools round|c first round id rest results|c first round]; try exact H.
    apply rec_finally_hist, Hm.
Qed.

Lemma set_tts_hist t s : hist_ok s -> hist_ok (set_tts t s).
Proof. apply hist_ok_keep; auto. Qed.

Lemma step_hist cfg s e : hist_ok s -> hist_ok (step cfg s e).
Proof.
  intros H. pose proof H as [Hm [Htw Hrc]].
  destruct e as [|t|t now|d| |now|c|resp| |r|sid|sid|sid|sid k|i|i]; simpl.
  - (* startSession *)
    unfold on_start_session. destruct (conv s) eqn:Ec.
    + apply main_start_hist. split; [simpl; rewrite Ec; reflexivity|split].
      * intros id rest results fs E Ei. simpl in E, Ei.
        destruct (Htw _ _ _ _ E Ei) as [pre [resp [Hc _]]]. rewrite Ec in Hc.
        destruct pre; discriminate.
      * intros pc E. exact (Hrc pc E).
    + apply (hist_ok_keep s); auto.
  - (* partial *)
    unfold on_partial. destruct (negb _); [exact H|]. destruct (_ || _); [|exact H].
    apply (hist_ok_keep s); simpl; auto.
  - (* committed *)
    unfold on_committed. destruct (nonblank t); simpl; [|exact H].
    destruct (last_is_user (conv s));
      (match goal with |- hist_ok (if _ then _ else main_start _ _ _ ?x) => assert (Hx : hist_ok x) end;
       [split; [|split];
        [simpl; unfold results_matched in Hm |- *; rewrite ?matched_app, Hm; simpl;
         destruct (latest_frame s); reflexivity
        |intros id rest results fs _ Ei; simpl in Ei; discriminate
        |intros pc E; simpl in E; exact (Hrc pc E)]
       |destruct (is_processing _); [apply (hist_ok_keep _ _ eq_refl eq_refl); auto|apply main_start_hist, Hx]]).
  - apply (hist_ok_keep s); auto.
  - apply (hist_ok_keep s); auto.
  - (* tick *)
    unfold on_tick. destruct (negb (timer_on s)); [exact H|].
    destruct (_ || _ || _ || _); [exact H|]. destruct (latest_frame s) as [f|] eqn:Ef; [|exact H].
    split; [|split].
    + simpl. apply prune_sanitize_matched, Hm.
    + intros id rest results fs E. discriminate.
    + intros pc E. simpl in E. injection E as <-. split; [|exact I].
      unfold results_matched, pc_commit, matched_from, pair_ok.
      rewrite build_user_content_free. reflexivity.
  - (* delta *)
    destruct (active s) as [[[ic full|ic full resp|id rest results] fs|pc]|] eqn:Ea; try exact H.
    unfold main_on_delta. destruct (interrupted s); [exact H|].
    apply hist_ok_intro; simpl; [rewrite handle_text_chunk_conv; exact Hm|exact I].
  - (* response *)
    destruct (active s) as [[[ic full|ic full resp0|id rest results] fs|pc]|] eqn:Ea; try exact H.
    + apply main_after_stream_hist, Hm.
    + destruct pc as [uc|c tools round|c first round id rest results|c first round]; try exact H.
      * destruct (rec_cancelled s); [apply rec_finally_hist, Hm|].
        exact (proj2 (proj2 (rec_round_end cfg [Msg User uc] resp true 0 s (proj1 (Hrc _ eq_refl)))) Hm).
      * exact (proj2 (proj2 (rec_round_end cfg c resp first (S round) s (proj1 (Hrc _ eq_refl)))) Hm).
  - (* response error *)
    destruct (active s) as [[[ic full|ic full resp0|id rest results] fs|pc]|] eqn:Ea; try exact H.
    + apply main_finally_hist, Hm.
    + destruct pc; try exact H; apply rec_finally_hist, Hm.
  - (* tutorial *)
    destruct (active s) as [[[ic full|ic full resp0|id rest results] fs|pc]|] eqn:Ea; try exact H.
    + pose proof (create_tutorial_done_calm r s) as [Hc _].
      destruct (create_tutorial_done r s) as [s1 j]. simpl in Hc.
      destruct Hc as [Ec [_ [Ei _]]].
      apply main_tools_hist; [rewrite Ec; exact Hm|]. intros Ei1.
      destruct (Htw _ _ _ _ Ea (eq_trans (eq_sym Ei) Ei1)) as [pre [resp [H1 [H2 H3]]]].
      exists pre, resp. rewrite Ec. split; [exact H1|split].
      * rewrite forallb_app, H2. reflexivity.
      * rewrite H3, result_ids_app, <- app_assoc. reflexivity.
    + destruct pc as [uc|c tools round|c first round id rest results|c first round]; try exact H.
      destruct (Hrc _ eq_refl) as [Hm0 [pre [resp [Hc0 [Hr0 Hids]]]]].
      pose proof (create_tutorial_done_calm r s) as [Hc _].
      destruct (create_tutorial_done r s) as [s1 j]. simpl in Hc.
      assert (E : rec_end False c [] s (rec_tools cfg c first round rest (results ++ [BToolResult id j]) s1)).
      { eapply rec_end_calm; [exact Hc|]. eapply rec_tools_end; eauto.
        - rewrite forallb_app, Hr0. reflexivity.
        - rewrite Hids, result_ids_app, <- app_assoc. reflexivity. }
      exact (proj2 (proj2 E) Hm).
  - destruct (tts_on_open sid (tts_st s)). apply resume_hist, set_tts_hist, H.
  - destruct (tts_on_error sid (tts_st s)). apply resume_hist, set_tts_hist, H.
  - apply set_tts_hist, H.
  - (* audio *)
    unfold on_tts_audio. destruct (socket_eqb _ _); [|exact H].
    destruct (nth_error _ _) as [[m tag]|]; [|exact H]. destruct (interrupted s); [exact H|].
    apply (hist_ok_keep s); simpl; auto.
  - destruct (tts_on_poll false i (tts_st s)). apply resume_hist, set_tts_hist, H.
  - destruct (tts_on_poll true i (tts_st s)). apply resume_hist, set_tts_hist, H.
Qed.

Lemma run_hist cfg tr s : hist_ok s -> hist_ok (run cfg s tr).
Proof.
  revert s; induction tr as [|e r IH]; intros s H; simpl; [exact H|].
  apply IH, step_hist, H.
Qed.

Lemma init_hist : hist_ok init_state.
Proof. apply hist_ok_intro; [reflexivity|exact I]. Qed.

(** ** The flags of a recurring check *)

Lemma flags_ok_intro s :
  pflags s -> match active s with Some (TRec _) => False | _ => True end -> flags_ok s.
Proof. intros Hp Ha. split; [exact Hp|]. intros pc E. rewrite E in Ha. contradiction. Qed.

Lemma flags_ok_keep s s' :
  has_pending s' = has_pending s -> rec_cancelled s' = rec_cancelled s ->
  is_processing s' = is_processing s -> rec_running s' = rec_running s -> active s' = active s ->
  flags_ok s -> flags_ok s'.
Proof.
  intros H1 H2 H3 H4 H5 [[P1 P2] R]. split; [split|].
  - rewrite H1, H2. exact P1.
  - rewrite H1, H3. exact P2.
  - intros pc E. rewrite H5 in E. rewrite H4, H3. exact (R pc E).
Qed.

Lemma pflags_calm s s1 : calm s s1 -> pflags s -> pflags s1.
Proof.
  intros [_ [_ [_ [Hr [Hp Hpr]]]]] [P1 P2]. split; rewrite Hp; [rewrite Hr|rewrite Hpr]; assumption.
Qed.

Lemma handle_tool_call_running name args s :
  match handle_tool_call name args s with
  | ToolNow s' _ => rec_running s' = rec_running s
  | ToolAwait s' => rec_running s' = rec_running s
  end.
Proof.
  unfold handle_tool_call.
  destruct (String.eqb name "Create_Tutorial"); [reflexivity|].
  destruct (String.eqb name "Progressed_Step"); [reflexivity|].
  destruct (String.eqb name "Suggested_HotKey"); reflexivity.
Qed.

Lemma sentence_loop_flags n s :
  has_pending (sentence_loop n s) = has_pending s /\ rec_cancelled (sentence_loop n s) = rec_cancelled s /\
  is_processing (sentence_loop n s) = is_processing s.
Proof.
  revert s; induction n as [|n IH]; intros s; simpl; [auto|].
  destruct (sentence_end (sentence_buffer s)) as [i|]; [|auto].
  destruct (interrupted s); [auto|].
  destruct (tts_call_send _ _ _ _ _) as [t b]. destruct (IH (set_buffer (drop_str (i + 2) (sentence_buffer s)) (set_tts t s))) as [A [B C]]. rewrite A, B, C. auto.
Qed.

Section Flags.
Variable cfg : config.

Lemma main_start_flags ic fs s :
  (has_pending s = true -> rec_cancelled s = true) ->
  (forall pc, active s = Some (TRec pc) -> rec_running s = true /\ is_processing s = true) ->
  flags_ok (main_start cfg ic fs s).
Proof.
  intros Hp Hr. unfold main_start.
  assert (H : is_processing s = true -> flags_ok s)
    by (intros Epr; split; [split; [exact Hp|rewrite Epr; auto]|exact Hr]).
  destruct (is_processing s) eqn:Epr.
  - specialize (H eq_refl).
    unfold session_continue. destruct fs; [destruct (cfg_rec_enabled cfg)|];
      apply (flags_ok_keep s); auto.
  - apply flags_ok_intro; simpl; [|exact I]. split; [exact Hp|auto].
Qed.

Lemma main_finally_flags fs s : pflags s -> flags_ok (main_finally cfg fs s).
Proof.
  intros [P1 P2]. unfold main_finally. simpl. destruct (has_pending s) eqn:Ep.
  - apply main_start_flags; simpl; [discriminate|intros pc E; discriminate].
  - unfold session_continue. destruct fs; [destruct (cfg_rec_enabled cfg)|];
      (apply flags_ok_intro; [unfold pflags; simpl; rewrite ?Ep; split; discriminate|exact I]).
Qed.

Lemma main_after_tools_flags fs rs s : pflags s -> flags_ok (main_after_tools cfg fs rs s).
Proof.
  intros P. unfold main_after_tools. destruct (interrupted s); simpl.
  - apply main_finally_flags, P.
  - apply main_start_flags; simpl; [apply (proj1 P)|intros pc E; discriminate].
Qed.

Lemma main_tools_flags fs tools rs s : pflags s -> flags_ok (main_tools cfg fs tools rs s).
Proof.
  revert rs s; induction tools as [|t rest IH]; intros rs s P; simpl.
  - apply main_after_tools_flags, P.
  - destruct (interrupted s); [apply main_after_tools_flags, P|].
    destruct t as [| | id name input |]; try (apply IH, P).
    pose proof (handle_tool_call_calm name input (add_tool_call name id s)) as Hh.
    assert (H0 : calm s (add_tool_call name id s)) by calm_tac.
    destruct (handle_tool_call name input (add_tool_call name id s)) as [s1 r|s1];
      destruct Hh as [_ [Hc1 _]]; pose proof (calm_trans _ _ _ H0 Hc1) as Hc.
    + apply IH. eapply pflags_calm; eauto.
    + apply flags_ok_intro; simpl; [eapply pflags_calm; eauto|exact I].
Qed.

Lemma main_after_flush_flags ic full resp fs reset s :
  pflags s -> flags_ok (main_after_flush cfg ic full resp fs reset s).
Proof.
  intros P. unfold main_after_flush.
  set (x := (let s := if reset then set_buffer "" s else s in
             let tag := cur_tag s in
             let s := set_tts (tts_close_stream tag (tts_flush tag (tts_st s))) s in
             if String.eqb full "" then s
             else add_emit (if ic then "agent_text_continue" else "agent_text") (JStr full) s)).
  assert (Px : pflags (push (Msg Assistant (CBlocks resp)) x)).
  { unfold x. destruct reset, (String.eqb full ""); exact P. }
  change (flags_ok (match filter is_tool_use resp with
                    | [] => main_finally cfg fs (push (Msg Assistant (CBlocks resp)) x)
                    | tools => main_tools cfg fs tools [] (push (Msg Assistant (CBlocks resp)) x)
                    end)).
  destruct (filter is_tool_use resp) as [|t ts].
  - apply main_finally_flags, Px.
  - apply main_tools_flags, Px.
Qed.

Lemma main_after_stream_flags ic full resp fs s :
  pflags s -> flags_ok (main_after_stream cfg ic full resp fs s).
Proof.
  intros P. unfold main_after_stream. destruct (interrupted s).
  - apply main_finally_flags, P.
  - destruct (nonblank (sentence_buffer s)).
    + destruct (tts_call_send _ _ _ _ _) as [t parked]. destruct parked.
      * apply flags_ok_intro; simpl; [exact P|exact I].
      * apply main_after_flush_flags. exact P.
    + apply main_after_flush_flags, P.
Qed.

Lemma rec_finally_flags s : flags_ok (rec_finally cfg s).
Proof.
  unfold rec_finally. simpl. destruct (has_pending s) eqn:Ep.
  - apply main_start_flags; simpl; [discriminate|intros pc E; discriminate].
  - apply flags_ok_intro; [unfold pflags; simpl; rewrite ?Ep; split; discriminate|exact I].
Qed.

Lemma rec_final_flags c s : flags_ok (rec_final cfg c s).
Proof. unfold rec_final. destruct (rec_cancelled s); apply rec_finally_flags. Qed.

Lemma rec_suspend_flags pc s : rec_flags s -> flags_ok (set_active (Some (TRec pc)) s).
Proof.
  intros [H1 [H2 H3]]. split; [exact H3|]. intros pc' _. simpl. auto.
Qed.

Lemma rec_after_tools_flags c first round rs s :
  rec_flags s -> flags_ok (rec_after_tools cfg c first round rs s).
Proof.
  intros R. unfold rec_after_tools. destruct (Nat.eqb round MAX_TOOL_ROUNDS); [apply rec_final_flags|].
  destruct (rec_cancelled s); [apply rec_finally_flags|].
  apply rec_suspend_flags. destruct R as [H1 [H2 H3]]. split; [exact H1|split; [exact H2|exact H3]].
Qed.

Lemma rec_tools_flags c first round tools rs s :
  rec_flags s -> flags_ok (rec_tools cfg c first round tools rs s).
Proof.
  revert rs s; induction tools as [|t rest IH]; intros rs s R; simpl.
  - apply rec_after_tools_flags, R.
  - destruct (rec_cancelled s); [apply rec_finally_flags|].
    destruct t as [| | id name input |]; try (apply IH, R).
    pose proof (handle_tool_call_calm name input (add_tool_call name id s)) as Hh.
    pose proof (handle_tool_call_running name input (add_tool_call name id s)) as Hrun.
    assert (H0 : calm s (add_tool_call name id s)) by calm_tac.
    destruct R as [R1 [R2 R3]].
    destruct (handle_tool_call name input (add_tool_call name id s)) as [s1 r|s1];
      destruct Hh as [_ [Hc1 _]]; pose proof (calm_trans _ _ _ H0 Hc1) as Hc;
      assert (R' : rec_flags s1)
        by (split; [rewrite Hrun; exact R1|split; [rewrite (proj2 (proj2 (proj2 (proj2 (proj2 Hc))))); exact R2
                                                  |eapply pflags_calm; eauto]]).
    + apply IH, R'.
    + apply rec_suspend_flags, R'.
Qed.

Lemma rec_after_text_flags c tools round s :
  rec_flags s -> flags_ok (rec_after_text cfg c tools round s).
Proof.
  intros R. unfold rec_after_text, rec_after_tts. destruct (rec_cancelled s); [apply rec_finally_flags|].
  destruct tools; [apply rec_final_flags|apply rec_tools_flags, R].
Qed.

Lemma rec_round_flags c resp first round s :
  rec_flags s -> flags_ok (rec_round cfg c resp first round s).
Proof.
  intros R. unfold rec_round. destruct (rec_cancelled s); [apply rec_finally_flags|].
  destruct (includes _ _); [apply rec_finally_flags|].
  destruct R as [R1 [R2 R3]].
  destruct (String.eqb (first_text resp) "").
  - unfold rec_after_tts. destruct (filter is_tool_use resp);
      [apply rec_final_flags|apply rec_tools_flags; split; auto].
  - destruct (tts_call_send _ _ _ _ _) as [t parked].
    assert (R' : rec_flags (set_tts t (add_emit (if first then "agent_text" else "agent_text_continue")
                                                (JStr (first_text resp)) s)))
      by (split; [exact R1|split; [exact R2|exact R3]]).
    destruct parked; [apply rec_suspend_flags, R'|apply rec_after_text_flags, R'].
Qed.

End Flags.

Lemma resume_flags cfg k s : flags_ok s -> flags_ok (resume_tts cfg k s).
Proof.
  intros H. pose proof H as [P Hr]. unfold resume_tts.
  destruct k as [[|]|]; destruct (active s) as [[[ic full|ic full resp|id rest results] fs|pc]|] eqn:Ea;
    try exact H.
  - apply main_after_flush_flags, P.
  - destruct pc; try exact H. apply rec_after_text_flags.
    destruct (Hr _ eq_refl). split; auto.
  - apply main_finally_flags, P.
  - destruct pc; try exact H. apply rec_finally_flags.
Qed.

Lemma set_tts_flags t s : flags_ok s -> flags_ok (set_tts t s).
Proof. apply flags_ok_keep; reflexivity. Qed.

Lemma step_flags cfg s e : flags_ok s -> flags_ok (step cfg s e).
Proof.
  intros H. pose proof H as [[P1 P2] Hr].
  destruct e as [|t|t now|d| |now|c|resp| |r|sid|sid|sid|sid k|i|i]; simpl.
  - unfold on_start_session. destruct (conv s).
    + apply main_start_flags; simpl; auto.
    + apply (flags_ok_keep s); auto.
  - unfold on_partial. destruct (negb _); [exact H|]. destruct (_ || _); [|exact H].
    split; [split|]; simpl; auto.
  - unfold on_committed. destruct (nonblank t); simpl; [|exact H].
    destruct (last_is_user (conv s)); simpl;
      (destruct (is_processing s) eqn:Epr;
       [split; [split|]; simpl; rewrite ?Epr; auto
       |apply main_start_flags; simpl; rewrite ?Epr; auto]).
  - apply (flags_ok_keep s); auto.
  - apply (flags_ok_keep s); auto.
  - unfold on_tick. destruct (negb (timer_on s)); [exact H|].
    destruct (rec_running s || speaking s || is_processing s || _) eqn:Ec; [exact H|].
    destruct (latest_frame s); [|exact H].
    assert (Epr : is_processing s = false)
      by (destruct (is_processing s); [rewrite !orb_true_r in Ec; discriminate|reflexivity]).
    assert (Ep : has_pending s = false)
      by (destruct (has_pending s); [rewrite (P2 eq_refl) in Epr; discriminate|reflexivity]).
    split; [split|]; simpl; rewrite ?Ep; auto; discriminate.
  - destruct (active s) as [[[ic full|ic full resp|id rest results] fs|pc]|] eqn:Ea; try exact H.
    unfold main_on_delta. destruct (interrupted s); [exact H|].
    apply flags_ok_intro; [|exact I]. unfold handle_text_chunk_for_tts.
    destruct (interrupted s); [split; auto|].
    match goal with |- pflags (set_active _ (sentence_loop ?n ?x)) =>
      destruct (sentence_loop_flags n x) as [F1 [F2 F3]] end.
    unfold pflags; simpl in F1, F2, F3 |- *. rewrite F1, F2, F3. split; auto.
  - destruct (active s) as [[[ic full|ic full resp0|id rest results] fs|pc]|] eqn:Ea; try exact H.
    + apply main_after_stream_flags. split; auto.
    + destruct (Hr _ eq_refl) as [R1 R2].
      destruct pc; try exact H.
      * assert (Q : pflags s) by (split; auto).
        destruct (rec_cancelled s); [apply rec_finally_flags|].
        apply rec_round_flags. split; [exact R1|split; [exact R2|exact Q]].
      * apply rec_round_flags. split; [exact R1|split; [exact R2|split; auto]].
  - destruct (active s) as [[[ic full|ic full resp0|id rest results] fs|pc]|] eqn:Ea; try exact H.
    + apply main_finally_flags. split; auto.
    + destruct pc; try exact H; apply rec_finally_flags.
  - destruct (active s) as [[[ic full|ic full resp0|id rest results] fs|pc]|] eqn:Ea; try exact H.
    + pose proof (create_tutorial_done_calm r s) as [Hc _].
      destruct (create_tutorial_done r s) as [s1 j]. simpl in Hc.
      apply main_tools_flags. eapply pflags_calm; [exact Hc|split; auto].
    + destruct (Hr _ eq_refl) as [R1 R2].
      destruct pc; try exact H.
      assert (Hrun : rec_running (fst (create_tutorial_done r s)) = rec_running s)
        by (destruct r; reflexivity).
      pose proof (create_tutorial_done_calm r s) as [Hc _].
      destruct (create_tutorial_done r s) as [s1 j]. simpl in Hc, Hrun.
      apply rec_tools_flags. split; [rewrite Hrun; exact R1|split].
      * rewrite (proj2 (proj2 (proj2 (proj2 (proj2 Hc))))). exact R2.
      * eapply pflags_calm; [exact Hc|split; auto].
  - destruct (tts_on_open sid (tts_st s)). apply resume_flags, set_tts_flags, H.
  - destruct (tts_on_error sid (tts_st s)). apply resume_flags, set_tts_flags, H.
  - apply set_tts_flags, H.
  - unfold on_tts_audio. destruct (socket_eqb _ _); [|exact H].
    destruct (nth_error _ _) as [[m tag]|]; [|exact H]. destruct (interrupted s); [exact H|].
    apply (flags_ok_keep s); auto.
  - destruct (tts_on_poll false i (tts_st s)). apply resume_flags, set_tts_flags, H.
  - destruct (tts_on_poll true i (tts_st s)). apply resume_flags, set_tts_flags, H.
Qed.

Lemma run_flags cfg tr s : flags_ok s -> flags_ok (run cfg s tr).
Proof.
  revert s; induction tr as [|e r IH]; intros s H; simpl; [exact H|].
  apply IH, step_flags, H.
Qed.

Lemma init_flags : flags_ok init_state.
Proof. apply flags_ok_intro; [split; discriminate|exact I]. Qed.

(** ** Tool batches *)


(** ** Claims *)

Module Claims.

Lemma sent_texts_app (l1 l2 : list tts_call) :
  sent_texts (l1 ++ l2) = sent_texts l1 ++ sent_texts l2.
Proof.
  induction l1 as [|c l1 IH]; [reflexivity|].
  destruct c; simpl; rewrite ?IH; reflexivity.
Qed.

(** C1 (code bug): the history sent to the generator need not alternate.
    After a partial transcript interrupts the greeting cycle and its stream
    rejects, no assistant turn is recorded; the idle check then sends
    [[SESSION_START]] followed directly by its own user turn. *)
Theorem check_request_two_user_turns :
  nth_error (requests (run blender_cfg init_state trace_partial_then_check)) 1 =
    Some (ReqCheck,
          [Msg User (CStr "[SESSION_START]");
           Msg User (build_user_content (Some "F") (check_prompt blender_cfg init_state))]) /\
  alternates [Msg User (CStr "[SESSION_START]");
              Msg User (build_user_content (Some "F") (check_prompt blender_cfg init_state))]
    = false.
Proof. split; vm_compute; reflexivity. Qed.

(** C4 (code bug): a sentence of an interrupted cycle still reaches the
    client. The greeting cycle (request 1) hands "Let me help. " to the
    synthesizer while the socket is connecting; the barge-in tears the socket
    down but leaves that waiting call alive; it sends its sentence once the
    next cycle's socket opens, and the audio for it, tagged with cycle 1, is
    forwarded while the flag (cleared by cycle 2) is unset. *)
Theorem stale_sentence_audio_forwarded :
  let s := run blender_cfg init_state trace_stale_poller in
  audio_out s = [(1, WText "Let me help. ", 1)] /\
  length (requests s) = 2 /\
  In CallInterrupt (tts_calls (tts_st s)).
Proof.
  vm_compute. split; [reflexivity|split; [reflexivity|]].
  repeat first [left; reflexivity | right].
Qed.

(** C5: for every history the orchestrator reaches (so every history given
    to the sanitization pass), each tool-result turn answers, id for id and in
    order, the assistant turn just before it, and [sanitize] computes the pass
    as the claim words it ([sanitize_spec]): an assistant turn with tool uses
    that is not immediately followed by a user turn carrying the matching
    results is normalized to its text or to the placeholder, and every other
    turn is left unchanged. *)
Theorem sanitize_reachable_as_specified (cfg : config) (tr : list event) :
  let h := conv (run cfg init_state tr) in
  results_matched h = true /\ sanitize h = sanitize_spec h.
Proof.
  intros h. pose proof (proj1 (run_hist cfg tr init_state init_hist)) as Hm.
  split; [exact Hm|]. apply (sanitize_agrees h None), Hm.
Qed.

(** C7 (corrected, counterexample): the flush of the remaining buffer appends
    a space, so the third text handed to the synthesizer is "Great. ", not
    "Great.". *)
Theorem hello_third_text_has_space :
  sent_texts (tts_calls (tts_st (run blender_cfg init_state
                                   (EvStartSession :: hello_deltas hello_resp))))
    = ["Hello there. "; "How are you? "; "Great. "] /\
  ["Hello there. "; "How are you? "; "Great. "] <> ["Hello there. "; "How are you? "; "Great."].
Proof. split; [vm_compute; reflexivity | discriminate]. Qed.

(** C7 (corrected): in any main cycle that is streaming with an empty
    sentence buffer and is not interrupted, the deltas "Hello there. How "
    and "are you? Great." followed by the end of the response make the
    synthesizer receive exactly "Hello there. ", "How are you? " and
    "Great. " (the flush of the remaining buffer with a space appended), in
    that order. *)
Theorem hello_sentences_dispatched (cfg : config) (s : state) (ic : bool) (full : string) (fs : bool) :
  active s = Some (TMain (MStream ic full) fs) ->
  interrupted s = false ->
  sentence_buffer s = "" ->
  sent_texts (tts_calls (tts_st (run cfg s (hello_deltas hello_resp)))) =
    sent_texts (tts_calls (tts_st s)) ++ ["Hello there. "; "How are you? "; "Great. "].
Proof.
  destruct s as [cv intr proc pend rrun rcan spk fr lui buf tut si tm [ws con cing nx wts calls wire] act rq au em tl].
  simpl. intros -> -> ->.
  (* The cycle's branches depend only on these; [app], [sanitize] and
     [prune_old_images] stay folded so that the symbolic history is not
     unfolded. *)
  destruct cfg as [fig [|] idle], full, ws, con, cing, pend, proc, fs;
    cbv -[app sent_texts sanitize prune_old_images];
    rewrite ?sent_texts_app; cbv -[app sent_texts sanitize prune_old_images];
    rewrite <- ?app_assoc; reflexivity.
Qed.

Lemma hello_sentences_dispatched_witness :
  sent_texts (tts_calls (tts_st (run blender_cfg (run blender_cfg init_state [EvStartSession])
                                   (hello_deltas hello_resp)))) =
    sent_texts (tts_calls (tts_st (run blender_cfg init_state [EvStartSession])))
      ++ ["Hello there. "; "How are you? "; "Great. "].
Proof.
  apply (hello_sentences_dispatched blender_cfg (run blender_cfg init_state [EvStartSession]) false "" true);
    vm_compute; reflexivity.
Defined.

(** C8: pruning keeps every turn in place; the turn at position [i] is
    stripped exactly when it is image-bearing and fewer than
    (count - 10) image-bearing turns precede it, i.e. it is among the oldest
    (count - 10); a stripped turn keeps its role and all its non-image blocks;
    with at most 10 image-bearing turns nothing changes. *)
Theorem prune_strips_oldest (h : list msg) :
  length (prune_old_images h) = length h /\
  (forall i, nth_error (prune_old_images h) i =
             option_map (fun m => if image_bearing m
                                     && (count_images (firstn i h)
                                         <? count_images h - MAX_CONTEXT_IMAGES)
                                  then strip_images m else m)
                        (nth_error h i)) /\
  (forall m, role_of (strip_images m) = role_of m /\
             view_blocks (content_of (strip_images m)) =
               filter (fun b => negb (is_image b)) (blocks_of (content_of m))) /\
  (count_images h <= MAX_CONTEXT_IMAGES -> prune_old_images h = h).
Proof.
  split; [apply prune_old_images_length|].
  split; [intros i; rewrite prune_old_images_strip_first; apply strip_first_nth|].
  split.
  - intros m. unfold strip_images.
    destruct (filter (fun b => negb (is_image b)) (blocks_of (content_of m))) as [|[t| | |] [|b' r]] eqn:E;
      simpl; rewrite ?E; split; reflexivity.
  - intros Hle. unfold prune_old_images, image_indices.
    rewrite image_indices_from_length.
    destruct (Nat.leb_spec (count_images h) MAX_CONTEXT_IMAGES); [reflexivity|lia].
Qed.

(** C9: a tool name outside the dispatch table yields the error-shaped result
    [{error: "Unknown tool: <name>"}] without changing the state, and the
    tool loops of the main cycle and of the recurring check go on with the
    next tool, that result recorded. *)
Theorem unknown_tool_error_result (name : string) (args : json) :
  name <> "Create_Tutorial" -> name <> "Progressed_Step" -> name <> "Suggested_HotKey" ->
  (forall s, handle_tool_call name args s =
             ToolNow s (JObj [("error", JStr ("Unknown tool: " ++ name)%string)])) /\
  (forall cfg fs id rest results s, interrupted s = false ->
     main_tools cfg fs (BToolUse id name args :: rest) results s =
     main_tools cfg fs rest
       (results ++ [BToolResult id (JObj [("error", JStr ("Unknown tool: " ++ name)%string)])])
       (add_tool_call name id s)) /\
  (forall cfg commit first round id rest results s, rec_cancelled s = false ->
     rec_tools cfg commit first round (BToolUse id name args :: rest) results s =
     rec_tools cfg commit first round rest
       (results ++ [BToolResult id (JObj [("error", JStr ("Unknown tool: " ++ name)%string)])])
       (add_tool_call name id s)).
Proof.
  intros H1 H2 H3.
  assert (Hd : forall s, handle_tool_call name args s =
                         ToolNow s (JObj [("error", JStr ("Unknown tool: " ++ name)%string)])).
  { intros s. unfold handle_tool_call.
    apply String.eqb_neq in H1, H2, H3. rewrite H1, H2, H3. reflexivity. }
  split; [exact Hd|split].
  - intros cfg fs id rest results s Hi. simpl. rewrite Hi, Hd. reflexivity.
  - intros cfg commit first round id rest results s Hc. simpl. rewrite Hc, Hd. reflexivity.
Qed.

Lemma unknown_tool_error_result_witness :
  handle_tool_call "Delete_Everything" JNull init_state =
    ToolNow init_state (JObj [("error", JStr "Unknown tool: Delete_Everything")]).
Proof.
  apply (unknown_tool_error_result "Delete_Everything" JNull); discriminate.
Defined.




(** C3 (amended): in every reachable state where a recurring check is
    suspended at [pc], one event [e] (see [rec_goal]). Apart from the turns
    the handler pushes for the user itself: while the check stays suspended
    nothing is appended, a cancellation is never undone and the provisional
    turns only grow; when it ends, either nothing is appended, which happens
    only if it was cancelled, the generation call failed, the model answered
    [NO_GUIDANCE_NEEDED] (possibly after tools ran), or the synthesizer's
    socket for its text failed; or it was not cancelled, and all its
    provisional turns, the last assistant turn and, after tools, the one
    result turn are appended together, at the end, as a complete exchange. *)
Theorem rec_check_all_or_nothing (cfg : config) (tr : list event) (e : event) (pc : rec_pc) :
  active (run cfg init_state tr) = Some (TRec pc) ->
  rec_goal cfg (run cfg init_state tr) e pc.
Proof.
  intros Ha.
  destruct (run_flags cfg tr init_state init_flags) as [[P1 P2] Hr].
  destruct (run_hist cfg tr init_state init_hist) as [_ [_ Hok]].
  destruct (Hr _ Ha) as [R1 R2].
  apply rec_step_goal; auto.
Qed.

Lemma rec_check_all_or_nothing_witness :
  let s := run blender_cfg init_state trace_greeting in
  let e := EvResponse [BToolUse "t1" "Suggested_HotKey" (JObj [("key_combo", JStr "G")])] in
  let pc := match active s with Some (TRec pc) => pc | _ => RInitial (CStr "") end in
  active s = Some (TRec pc) /\ rec_goal blender_cfg s e pc.
Proof.
  intros s e pc.
  assert (Ha : active (run blender_cfg init_state trace_greeting) = Some (TRec pc))
    by (vm_compute; reflexivity).
  split; [exact Ha|].
  exact (rec_check_all_or_nothing blender_cfg trace_greeting e pc Ha).
Defined.

(** C3 (counterexample): after the greeting, a recurring check that is never
    cancelled calls [Suggested_HotKey], sends a follow-up request holding its
    three provisional turns, and then ends on a [NO_GUIDANCE_NEEDED] answer:
    the tool ran, but none of its turns is appended to the history. *)
Lemma check_no_guidance_commits_nothing :
  let s0 := run blender_cfg init_state trace_greeting in
  let s1 := run blender_cfg s0 trace_check_no_guidance in
  (exists uc, active s0 = Some (TRec (RInitial uc))) /\ rec_cancelled s0 = false /\
  forallb (fun x => negb (rec_cancelled x)) (run_states blender_cfg s0 trace_check_no_guidance) = true /\
  active s1 = None /\ conv s1 = conv s0 /\
  tool_log s1 = tool_log s0 ++ [("Suggested_HotKey", "t1")] /\
  map fst (requests s1) = [ReqMain; ReqCheck; ReqFollowUp] /\
  length (snd (last (requests s1) (ReqMain, []))) = length (conv s0) + 3.
Proof.
  vm_compute. split; [eexists; reflexivity|].
  repeat split; reflexivity.
Qed.

(** C6: after a user turn is committed (barge-in) while the main cycle waits
    for its final flush, the utterance is stored and queued, but the cycle
    stays parked on the socket the interruption replaced: whatever events
    follow, no generation request is ever issued again and the utterance
    stays queued. *)
Theorem flush_barge_in_deadlock :
  let s := run blender_cfg init_state trace_flush_barge_in in
  In (Msg User (CStr "wait a second")) (conv s) /\ has_pending s = true /\
  is_processing s = true /\ length (requests s) = 1 /\
  forall tr, requests (run blender_cfg s tr) = requests s /\
             has_pending (run blender_cfg s tr) = true.
Proof.
  intros s.
  assert (Hs : stuck 0 s) by apply flush_barge_in_stuck.
  split; [vm_compute; repeat first [left; reflexivity | right]|].
  split; [vm_compute; reflexivity|split; [vm_compute; reflexivity|split; [vm_compute; reflexivity|]]].
  intros tr. destruct (stuck_run blender_cfg 0 s tr Hs) as [[_ [_ [Hp _]]] Hr].
  split; [exact Hr|exact Hp].
Qed.

(** C10: from an interrupted state, as long as no main cycle issues a
    request, the state stays interrupted and no audio is forwarded, whatever
    recurring checks run meanwhile; the timer callback that starts a check
    never changes the flag. *)
Theorem interrupted_check_audio_dropped (cfg : config) (s : state) (tr : list event) :
  interrupted s = true ->
  count_main (requests (run cfg s tr)) = count_main (requests s) ->
  interrupted (run cfg s tr) = true /\ audio_out (run cfg s tr) = audio_out s /\
  (forall now s0, interrupted (on_tick cfg now s0) = interrupted s0).
Proof.
  intros Hi Hc. destruct (pres_run cfg s tr) as [_ H].
  destruct (H Hc Hi) as [H1 H2]. split; [exact H1|split; [exact H2|]].
  intros now s0. apply on_tick_interrupted.
Qed.

(** The witness runs an idle recurring check after an uncommitted partial
    transcript interrupted the greeting: the check sends its guidance to the
    synthesizer, and its audio chunk is dropped. *)
Lemma interrupted_check_audio_dropped_witness :
  let s := run blender_cfg init_state trace_interrupt_only in
  interrupted s = true /\
  count_main (requests (run blender_cfg s trace_idle_check_speaks)) = count_main (requests s) /\
  interrupted (run blender_cfg s trace_idle_check_speaks) = true /\
  audio_out (run blender_cfg s trace_idle_check_speaks) = audio_out s /\
  (forall now s0, interrupted (on_tick blender_cfg now s0) = interrupted s0).
Proof.
  intros s.
  assert (Hi : interrupted s = true) by (vm_compute; reflexivity).
  assert (Hc : count_main (requests (run blender_cfg s trace_idle_check_speaks)) =
               count_main (requests s)) by (vm_compute; reflexivity).
  split; [exact Hi|split; [exact Hc|]].
  exact (interrupted_check_audio_dropped blender_cfg s trace_idle_check_speaks Hi Hc).
Defined.

End Claims.
